(** * Response recovery, backend policy and model selection of the
      financial-analysis clients

    A shallow embedding of the three Python clients
    ([tests/test_model.py], [tests/test_ollama.py], [tests/test_gpt.py]):
    the JSON recovery function [extract_json_from_response], the request
    builder and response handling of [call_ollama] and [call_dmr], the two
    model listing tiers, the interactive model choosers, the prompt builder,
    the file prompt and the [main] functions.

    Text.  A Python [str] is modelled as a list of characters, a character
    being a code point in 0..255 (the type [ascii]); code points above 255
    are outside the model.  The character predicates below ([isspace],
    [lower], [isdigit], line boundaries) follow Python on that range.

    Library code.  [json.loads], [re.sub], [re.findall], [str.replace],
    [sorted] and [set] belong to the Python standard library, not to the
    repository; they are modelled here by executable definitions
    ([json_loads], [re_sub], [re_findall], [str_replace], [sorted_set]).

    Output.  Of what a run writes, only the documents printed on standard
    output are kept; printing a decoded document is taken to succeed (a
    lone surrogate, which an encoding may refuse, lies above code point
    255).  The spinner thread only writes to the error stream and is left
    out. *)

From Stdlib Require Import String Ascii List ZArith Lia Bool Arith Sorted Permutation
  DecimalString DecimalPos.
Import ListNotations.

Local Open Scope list_scope.

Set Warnings "-register-all".

(* ================================================================== *)
(** ** Text *)

Definition text := list ascii.

(** A literal: [txt "abc"] is the text [a; b; c]. *)
Definition txt (s : string) : text := list_ascii_of_string s.
Arguments txt s%_string.

(** A literal in which an apostrophe stands for the double quote:
    [qtxt "{'a':1}"] is the text of the JSON object with key [a]. *)
Definition qtxt (s : string) : text :=
  map (fun c => if nat_of_ascii c =? 39 then ascii_of_nat 34 else c)
      (list_ascii_of_string s).
Arguments qtxt s%_string.

Definition code (c : ascii) : nat := nat_of_ascii c.

Definition chr_eqb (a b : ascii) : bool := Ascii.eqb a b.

(** [str.isspace] on one character: TAB..CR, FS..US, space, NEL, NBSP. *)
Definition isspace (c : ascii) : bool :=
  let n := code c in
  ((9 <=? n) && (n <=? 13)) || ((28 <=? n) && (n <=? 32))
  || (n =? 133) || (n =? 160).

(** [str.lower] on one character: A-Z, and the Latin-1 capitals
    0xC0..0xDE except the multiplication sign 0xD7. *)
Definition lower_chr (c : ascii) : ascii :=
  let n := code c in
  if ((65 <=? n) && (n <=? 90))
     || ((192 <=? n) && (n <=? 222) && negb (n =? 215))
  then ascii_of_nat (n + 32) else c.

Definition lower (s : text) : text := map lower_chr s.

(** [s.strip()] *)
Fixpoint lstrip (s : text) : text :=
  match s with
  | c :: t => if isspace c then lstrip t else s
  | [] => []
  end.

Definition rstrip (s : text) : text := rev (lstrip (rev s)).

Definition strip (s : text) : text := rstrip (lstrip s).

(** [s.split()] with no argument: maximal runs of non-space characters.
    [cur] is the token being read, reversed. *)
Fixpoint split_ws_aux (cur : text) (s : text) : list text :=
  match s with
  | [] => match cur with [] => [] | _ => [rev cur] end
  | c :: t =>
      if isspace c
      then match cur with
           | [] => split_ws_aux [] t
           | _ => rev cur :: split_ws_aux [] t
           end
      else split_ws_aux (c :: cur) t
  end.

Definition split_ws (s : text) : list text := split_ws_aux [] s.

(** Line boundaries of [str.splitlines]: LF, VT, FF, CR (CR LF counts
    once), FS, GS, RS and NEL. *)
Definition is_linebreak (c : ascii) : bool :=
  let n := code c in
  ((10 <=? n) && (n <=? 13)) || ((28 <=? n) && (n <=? 30)) || (n =? 133).

Fixpoint splitlines_aux (cur : text) (s : text) : list text :=
  match s with
  | [] => match cur with [] => [] | _ => [rev cur] end
  | c :: t =>
      if is_linebreak c
      then rev cur ::
           match t with
           | d :: t' =>
               if (code c =? 13) && (code d =? 10)
               then splitlines_aux [] t'
               else splitlines_aux [] t
           | [] => []
           end
      else splitlines_aux (c :: cur) t
  end.

Definition splitlines (s : text) : list text := splitlines_aux [] s.

(** Prefix and substring tests, parameterised by the character comparison
    ([needle in hay] uses equality, the case-insensitive regex flag uses
    equality after lowering). *)
Fixpoint prefix_by (eq : ascii -> ascii -> bool) (p s : text) : bool :=
  match p, s with
  | [], _ => true
  | a :: p', b :: s' => eq a b && prefix_by eq p' s'
  | _ :: _, [] => false
  end.

Fixpoint contains_by (eq : ascii -> ascii -> bool) (p s : text) : bool :=
  prefix_by eq p s ||
  match s with
  | [] => false
  | _ :: t => contains_by eq p t
  end.

(** [needle in hay] on strings. *)
Definition str_in (needle hay : text) : bool := contains_by chr_eqb needle hay.

Definition ci_eqb (a b : ascii) : bool := chr_eqb (lower_chr a) (lower_chr b).

(** Case-insensitive occurrence of [needle] in [hay]. *)
Definition icontains (needle hay : text) : bool := contains_by ci_eqb needle hay.

(** [s.find(c)] and [s.rfind(c)] for a one-character needle: the index of
    the first (last) occurrence, or -1. *)
Fixpoint find_chr (c : ascii) (s : text) : Z :=
  match s with
  | [] => (-1)%Z
  | d :: t =>
      if chr_eqb c d then 0%Z
      else match find_chr c t with
           | Zneg _ => (-1)%Z
           | i => (i + 1)%Z
           end
  end.

Fixpoint rfind_chr (c : ascii) (s : text) : Z :=
  match s with
  | [] => (-1)%Z
  | d :: t =>
      match rfind_chr c t with
      | Zneg _ => if chr_eqb c d then 0%Z else (-1)%Z
      | i => (i + 1)%Z
      end
  end.

(** Slices [s[i:]] and [s[i:j]] for non-negative indices. *)
Definition slice_from (i : Z) (s : text) : text := skipn (Z.to_nat i) s.

Definition slice (i j : Z) (s : text) : text :=
  firstn (Z.to_nat j - Z.to_nat i) (skipn (Z.to_nat i) s).

(** Lexicographic order by code point, the order of [sorted] on strings. *)
Fixpoint text_compare (a b : text) : comparison :=
  match a, b with
  | [], [] => Eq
  | [], _ :: _ => Lt
  | _ :: _, [] => Gt
  | x :: a', y :: b' =>
      match Nat.compare (code x) (code y) with
      | Eq => text_compare a' b'
      | o => o
      end
  end.

Definition text_lt (a b : text) : Prop := text_compare a b = Lt.

Definition text_eqb (a b : text) : bool :=
  match text_compare a b with Eq => true | _ => false end.

(** [x in l] on a list of strings. *)
Definition mem (x : text) (l : list text) : bool := existsb (text_eqb x) l.

(** [sorted(set(names))]: names are inserted into a strictly increasing
    list, so equal names collapse and the result is ordered. *)
Fixpoint insert_uniq (x : text) (l : list text) : list text :=
  match l with
  | [] => [x]
  | y :: t =>
      match text_compare x y with
      | Lt => x :: l
      | Eq => l
      | Gt => y :: insert_uniq x t
      end
  end.

Definition sorted_set (names : list text) : list text :=
  fold_right insert_uniq [] names.

(* ================================================================== *)
(** ** JSON values and [json.loads] *)

(** A decoded JSON document.  An integer literal becomes a Python [int]
    ([JInt]); a literal with a fraction or an exponent becomes a [float],
    kept here as the exact decimal [mant * 10^exp10] it denotes ([JFloat]);
    rounding to a double is not modelled.  [JNaN] and [JInf] are the
    constants [NaN], [Infinity] and [-Infinity] that [json.loads] accepts.
    An object is a Python [dict]: keys are unique and keep the order of
    their first insertion. *)
Inductive json : Type :=
| JNull
| JBool (b : bool)
| JInt (z : Z)
| JFloat (mant exp10 : Z)
| JNaN
| JInf (negative : bool)
| JStr (s : text)
| JArr (items : list json)
| JObj (fields : list (text * json)).

(** [d[k] = v] on a dict. *)
Fixpoint dict_set (k : text) (v : json) (d : list (text * json))
  : list (text * json) :=
  match d with
  | [] => [(k, v)]
  | (k', v') :: t =>
      if text_eqb k k' then (k', v) :: t else (k', v') :: dict_set k v t
  end.

(** [d.get(k)] on a dict: [None] when the key is absent. *)
Fixpoint dict_get (k : text) (d : list (text * json)) : option json :=
  match d with
  | [] => None
  | (k', v) :: t => if text_eqb k k' then Some v else dict_get k t
  end.

Definition is_json_ws (c : ascii) : bool :=
  let n := code c in (n =? 32) || (n =? 9) || (n =? 10) || (n =? 13).

Fixpoint skip_ws (s : text) : text :=
  match s with
  | c :: t => if is_json_ws c then skip_ws t else s
  | [] => []
  end.

Definition is_digit (c : ascii) : bool :=
  let n := code c in (48 <=? n) && (n <=? 57).

Definition digit_val (c : ascii) : Z := Z.of_nat (code c - 48).

Definition hex_val (c : ascii) : option nat :=
  let n := code c in
  if (48 <=? n) && (n <=? 57) then Some (n - 48)
  else if (97 <=? n) && (n <=? 102) then Some (n - 87)
  else if (65 <=? n) && (n <=? 70) then Some (n - 55)
  else None.

(** The character a one-letter escape stands for. *)
Definition simple_escape (e : ascii) : option ascii :=
  let n := code e in
  if n =? 34 then Some e                       (* quote *)
  else if n =? 92 then Some e                  (* backslash *)
  else if n =? 47 then Some e                  (* slash *)
  else if n =? 98 then Some (ascii_of_nat 8)   (* \b *)
  else if n =? 102 then Some (ascii_of_nat 12) (* \f *)
  else if n =? 110 then Some (ascii_of_nat 10) (* \n *)
  else if n =? 114 then Some (ascii_of_nat 13) (* \r *)
  else if n =? 116 then Some (ascii_of_nat 9)  (* \t *)
  else None.

(** The body of a string literal, read after its opening quote (strict
    mode: a raw control character is an error).  A [\uXXXX] escape needs four
    hexadecimal digits; an escape above 0x00FF denotes a character outside
    the model and is stored by its low byte, which leaves acceptance as in
    Python. *)
Fixpoint scanstring (s : text) : option (text * text) :=
  match s with
  | [] => None
  | c :: t =>
      if code c =? 34 then Some ([], t)
      else if code c =? 92 then
        match t with
        | [] => None
        | e :: t1 =>
            if code e =? 117 then
              match t1 with
              | h1 :: h2 :: h3 :: h4 :: t2 =>
                  match hex_val h1, hex_val h2, hex_val h3, hex_val h4 with
                  | Some a, Some b, Some c', Some d =>
                      match scanstring t2 with
                      | Some (r, rest) =>
                          Some (ascii_of_nat (c' * 16 + d) :: r, rest)
                      | None => None
                      end
                  | _, _, _, _ => None
                  end
              | _ => None
              end
            else
              match simple_escape e with
              | Some ch =>
                  match scanstring t1 with
                  | Some (r, rest) => Some (ch :: r, rest)
                  | None => None
                  end
              | None => None
              end
        end
      else if code c <? 32 then None
      else
        match scanstring t with
        | Some (r, rest) => Some (c :: r, rest)
        | None => None
        end
  end.

(** A maximal run of decimal digits: its value, its length, the rest. *)
Fixpoint digits_aux (acc : Z) (n : nat) (s : text) : Z * nat * text :=
  match s with
  | c :: t =>
      if is_digit c then digits_aux (acc * 10 + digit_val c) (S n) t
      else (acc, n, s)
  | [] => (acc, n, s)
  end.

Definition digits (s : text) : Z * nat * text := digits_aux 0%Z 0 s.

(** The integer part [0|[1-9]\d*] of a number. *)
Definition int_part (s : text) : option (Z * text) :=
  match s with
  | c :: t =>
      if code c =? 48 then Some (0%Z, t)
      else if is_digit c then
        let '(v, _, rest) := digits s in Some (v, rest)
      else None
  | [] => None
  end.

(** The optional fraction [\.\d+]: digits value, digit count, rest. *)
Definition frac_part (s : text) : option (Z * nat * text) :=
  match s with
  | c :: t =>
      if code c =? 46 then
        let '(v, n, rest) := digits t in
        match n with 0 => None | _ => Some (v, n, rest) end
      else None
  | [] => None
  end.

(** The optional exponent [[eE][-+]?\d+]: its signed value, rest. *)
Definition exp_part (s : text) : option (Z * text) :=
  match s with
  | c :: t =>
      if (code c =? 101) || (code c =? 69) then
        let '(neg, t1) :=
          match t with
          | d :: t' =>
              if code d =? 45 then (true, t')
              else if code d =? 43 then (false, t')
              else (false, t)
          | [] => (false, t)
          end in
        let '(v, n, rest) := digits t1 in
        match n with
        | 0 => None
        | _ => Some (if neg then (- v)%Z else v, rest)
        end
      else None
  | [] => None
  end.

(** A number: an optional minus sign, the integer part, an optional
    fraction and an optional exponent; the longest such prefix of [s]. *)
Definition match_number (s : text) : option (json * text) :=
  let '(neg, s1) :=
    match s with
    | c :: t => if code c =? 45 then (true, t) else (false, s)
    | [] => (false, s)
    end in
  match int_part s1 with
  | None => None
  | Some (i, s2) =>
      let sg (z : Z) := if neg then (- z)%Z else z in
      match frac_part s2 with
      | Some (fv, fn, s3) =>
          let mant := (i * 10 ^ Z.of_nat fn + fv)%Z in
          match exp_part s3 with
          | Some (e, s4) => Some (JFloat (sg mant) (e - Z.of_nat fn), s4)
          | None => Some (JFloat (sg mant) (- Z.of_nat fn), s3)
          end
      | None =>
          match exp_part s2 with
          | Some (e, s4) => Some (JFloat (sg i) e, s4)
          | None => Some (JInt (sg i), s2)
          end
      end
  end.

(** [s] starts with the literal [p]; the rest of [s] after it. *)
Fixpoint strip_prefix (p s : text) : option text :=
  match p, s with
  | [], _ => Some s
  | a :: p', b :: s' => if chr_eqb a b then strip_prefix p' s' else None
  | _ :: _, [] => None
  end.

Section Containers.
(** The scanner for one value, as handed to [JSONObject] and [JSONArray]. *)
Variable scan : text -> option (json * text).

(** The members of an object, read after the opening quote of a key.
    [n] bounds the number of members. *)
Fixpoint object_members (n : nat) (acc : list (text * json)) (s : text)
  : option (json * text) :=
  match n with
  | 0 => None
  | S n' =>
      match scanstring s with
      | None => None
      | Some (key, s1) =>
          match skip_ws s1 with
          | c :: s2 =>
              if code c =? 58 then
                match scan (skip_ws s2) with
                | None => None
                | Some (v, s3) =>
                    let acc' := dict_set key v acc in
                    match skip_ws s3 with
                    | d :: s4 =>
                        if code d =? 125 then Some (JObj acc', s4)
                        else if code d =? 44 then
                          match skip_ws s4 with
                          | q :: s5 =>
                              if code q =? 34
                              then object_members n' acc' s5
                              else None
                          | [] => None
                          end
                        else None
                    | [] => None
                    end
                end
              else None
          | [] => None
          end
      end
  end.

(** [JSONObject], read after the opening brace. *)
Definition JSONObject (s : text) : option (json * text) :=
  match skip_ws s with
  | c :: t =>
      if code c =? 125 then Some (JObj [], t)
      else if code c =? 34 then object_members (length t) [] t
      else None
  | [] => None
  end.

(** The items of an array, read at the start of an item. *)
Fixpoint array_items (n : nat) (acc : list json) (s : text)
  : option (json * text) :=
  match n with
  | 0 => None
  | S n' =>
      match scan s with
      | None => None
      | Some (v, s1) =>
          match skip_ws s1 with
          | d :: s2 =>
              if code d =? 93 then Some (JArr (rev (v :: acc)), s2)
              else if code d =? 44
              then array_items n' (v :: acc) (skip_ws s2)
              else None
          | [] => None
          end
      end
  end.

(** [JSONArray], read after the opening bracket. *)
Definition JSONArray (s : text) : option (json * text) :=
  match skip_ws s with
  | c :: t =>
      if code c =? 93 then Some (JArr [], t)
      else array_items (length s) [] (c :: t)
  | [] => None
  end.
End Containers.

(** [scan_once]: one JSON value at the start of [s].  [fuel] bounds the
    nesting depth. *)
Fixpoint scan_once (fuel : nat) (s : text) : option (json * text) :=
  match fuel with
  | 0 => None
  | S f =>
      match s with
      | [] => None
      | c :: t =>
          if code c =? 34 then
            match scanstring t with
            | Some (r, rest) => Some (JStr r, rest)
            | None => None
            end
          else if code c =? 123 then JSONObject (scan_once f) t
          else if code c =? 91 then JSONArray (scan_once f) t
          else
            match strip_prefix (txt "null") s with
            | Some rest => Some (JNull, rest)
            | None =>
            match strip_prefix (txt "true") s with
            | Some rest => Some (JBool true, rest)
            | None =>
            match strip_prefix (txt "false") s with
            | Some rest => Some (JBool false, rest)
            | None =>
            match strip_prefix (txt "NaN") s with
            | Some rest => Some (JNaN, rest)
            | None =>
            match strip_prefix (txt "Infinity") s with
            | Some rest => Some (JInf false, rest)
            | None =>
            match strip_prefix (txt "-Infinity") s with
            | Some rest => Some (JInf true, rest)
            | None => match_number s
            end end end end end end
      end
  end.

(** [json.loads(s)]: leading whitespace, one value, trailing whitespace,
    end of input; [None] stands for [json.JSONDecodeError].  Every level of
    nesting consumes a character, so the length of the text is enough fuel
    (lemma [json_loads_fuel]).  The interpreter's limits (recursion depth,
    length of integer literals) are not modelled. *)
Definition json_loads (s : text) : option json :=
  match scan_once (S (length s)) (skip_ws s) with
  | Some (v, rest) =>
      match skip_ws rest with
      | [] => Some v
      | _ :: _ => None
      end
  | None => None
  end.

Definition parses (s : text) : bool :=
  match json_loads s with Some _ => true | None => false end.

(* ================================================================== *)
(** ** Regular expressions: [re.sub] and [re.findall] *)

(** The fragment of Python's regular expressions the clients use.  Matching
    is by backtracking: [run r s] lists, in the order Python tries them,
    the ways [r] matches a prefix of [s], each with the text captured by
    the group (every pattern here has exactly one) and the unmatched
    rest.  The match Python reports is the head of that list. *)
Inductive regex : Type :=
| Eps
| Chr (p : ascii -> bool)
| Seq (a b : regex)
| Alt (a b : regex)
| Star (p : ascii -> bool)       (* greedy repetition of one character class *)
| LazyStar (p : ascii -> bool)   (* non-greedy repetition *)
| Group (a : regex)
| Ahead (a : regex).             (* positive lookahead *)

(** Rests after a greedy repetition, longest match first. *)
Fixpoint star_rests (p : ascii -> bool) (s : text) : list text :=
  match s with
  | c :: t => if p c then star_rests p t ++ [s] else [s]
  | [] => [[]]
  end.

(** Rests after a non-greedy repetition, shortest match first. *)
Fixpoint lazy_rests (p : ascii -> bool) (s : text) : list text :=
  s :: match s with
       | c :: t => if p c then lazy_rests p t else []
       | [] => []
       end.

Definition later_group (g1 g2 : option text) : option text :=
  match g2 with Some _ => g2 | None => g1 end.

Fixpoint run (r : regex) (s : text) : list (option text * text) :=
  match r with
  | Eps => [(None, s)]
  | Chr p =>
      match s with
      | c :: t => if p c then [(None, t)] else []
      | [] => []
      end
  | Seq a b =>
      flat_map
        (fun m1 => map (fun m2 => (later_group (fst m1) (fst m2), snd m2))
                       (run b (snd m1)))
        (run a s)
  | Alt a b => run a s ++ run b s
  | Star p => map (fun rest => (None, rest)) (star_rests p s)
  | LazyStar p => map (fun rest => (None, rest)) (lazy_rests p s)
  | Group a =>
      map (fun m => (Some (firstn (length s - length (snd m)) s), snd m))
          (run a s)
  | Ahead a =>
      match run a s with
      | [] => []
      | _ :: _ => [(None, s)]
      end
  end.

(** A literal, compared by [eq]: [chr_eqb], or [ci_eqb] under the
    ignore-case flag. *)
Fixpoint lit_by (eq : ascii -> ascii -> bool) (p : text) : regex :=
  match p with
  | [] => Eps
  | c :: t => Seq (Chr (eq c)) (lit_by eq t)
  end.

Definition lit (p : string) : regex := lit_by chr_eqb (txt p).
Arguments lit p%_string.

(** The dot under the DOTALL flag. *)
Definition any_chr (c : ascii) : bool := true.

Definition group_text (g : option text) : text :=
  match g with Some t => t | None => [] end.

(** [re.sub(r, repl, s)] for a replacement without back-references: the
    leftmost match at each position is replaced and scanning resumes after
    it.  [skip] counts the characters of the current match still to pass. *)
Fixpoint re_sub_from (r : regex) (repl : text) (skip : nat) (s : text) : text :=
  match s with
  | [] =>
      match skip, run r [] with
      | 0, _ :: _ => repl
      | _, _ => []
      end
  | c :: t =>
      match skip with
      | S k => re_sub_from r repl k t
      | 0 =>
          match run r s with
          | [] => c :: re_sub_from r repl 0 t
          | m :: _ =>
              match length s - length (snd m) with
              | 0 => repl ++ c :: re_sub_from r repl 0 t
              | S k => repl ++ re_sub_from r repl k t
              end
          end
      end
  end.

Definition re_sub (r : regex) (repl : text) (s : text) : text :=
  re_sub_from r repl 0 s.

(** [re.findall(r, s)] for a pattern with one group: the captures of the
    successive non-overlapping matches, left to right. *)
Fixpoint re_findall_from (r : regex) (skip : nat) (s : text) : list text :=
  match s with
  | [] =>
      match skip, run r [] with
      | 0, m :: _ => [group_text (fst m)]
      | _, _ => []
      end
  | c :: t =>
      match skip with
      | S k => re_findall_from r k t
      | 0 =>
          match run r s with
          | [] => re_findall_from r 0 t
          | m :: _ =>
              group_text (fst m)
              :: re_findall_from r (length s - length (snd m) - 1) t
          end
      end
  end.

Definition re_findall (r : regex) (s : text) : list text :=
  re_findall_from r 0 s.

(* ================================================================== *)
(** ** [extract_json_from_response] (tests/test_model.py) *)

Definition lbrace : ascii := ascii_of_nat 123.
Definition rbrace : ascii := ascii_of_nat 125.

(** The literals of the two preamble patterns; both patterns ignore
    case. *)
Definition marker_thinking : text := txt "thinking...".
Definition marker_done : text := txt "done thinking.".
Definition marker_respond : text := txt "we need to respond".

(** [(?is)(thinking\.\.\.|done thinking\.)] *)
Definition pat_thinking : regex :=
  Group (Alt (lit_by ci_eqb marker_thinking) (lit_by ci_eqb marker_done)).

(** [(?is)(we need to respond.*?)(?=\{)] *)
Definition pat_respond : regex :=
  Seq (Group (Seq (lit_by ci_eqb marker_respond) (LazyStar any_chr)))
      (Ahead (Chr (chr_eqb lbrace))).

(** The four patterns of step 4, matched with DOTALL: a json fence, a bare
    fence, the greedy brace span and the non-greedy brace span. *)
Definition pat_fence_json : regex :=
  Seq (lit "```json")
   (Seq (Star isspace)
    (Seq (Group (LazyStar any_chr)) (Seq (Star isspace) (lit "```")))).

Definition pat_fence : regex :=
  Seq (lit "```")
   (Seq (Star isspace)
    (Seq (Group (LazyStar any_chr)) (Seq (Star isspace) (lit "```")))).

Definition pat_braces_greedy : regex :=
  Group (Seq (Chr (chr_eqb lbrace))
             (Seq (Star any_chr) (Chr (chr_eqb rbrace)))).

Definition pat_braces_lazy : regex :=
  Group (Seq (Chr (chr_eqb lbrace))
             (Seq (LazyStar any_chr) (Chr (chr_eqb rbrace)))).

Definition patterns : list regex :=
  [pat_fence_json; pat_fence; pat_braces_greedy; pat_braces_lazy].

(** Steps 1 and 2: the text after both substitutions and after dropping
    what precedes the first opening brace. *)
Definition strip_preamble (content : text) : text :=
  re_sub pat_respond [] (re_sub pat_thinking [] content).

Definition clean (content : text) : text :=
  let cleaned := strip_preamble content in
  let start_idx := find_chr lbrace cleaned in
  if (0 <? start_idx)%Z then slice_from start_idx cleaned else cleaned.

(** The candidates of step 4 in the order the two nested loops visit
    them. *)
Definition pattern_matches (cleaned : text) : list text :=
  flat_map (fun pattern => re_findall pattern cleaned) patterns.

(** Step 5: the substring from the first opening to the last closing
    brace, when both exist in that order. *)
Definition outer_braces (cleaned : text) : option text :=
  let first := find_chr lbrace cleaned in
  let last := rfind_chr rbrace cleaned in
  if negb (first =? -1)%Z && negb (last =? -1)%Z && (first <? last)%Z
  then Some (slice first (last + 1) cleaned)
  else None.

(** [extract_json_from_response]: the cleaned text when it parses; else
    the first candidate of step 4 that parses; else the outer-brace slice
    when it parses; else, giving up, the cleaned text. *)
Definition extract_json_from_response (content : text) : text :=
  let cleaned := clean content in
  if parses cleaned then cleaned
  else
    match find parses (pattern_matches cleaned) with
    | Some m => m
    | None =>
        match outer_braces cleaned with
        | Some candidate => if parses candidate then candidate else cleaned
        | None => cleaned
        end
    end.

(** The same function keeping a log of the calls to [json.loads].
    [first_parsing] is the inner loop: the first candidate that parses,
    with the candidates handed to the parser on the way. *)
Fixpoint first_parsing (cands : list text) : option text * list text :=
  match cands with
  | [] => (None, [])
  | m :: rest =>
      if parses m then (Some m, [m])
      else let '(found, tried) := first_parsing rest in (found, m :: tried)
  end.

Definition extract_json_logged (content : text) : text * list text :=
  let cleaned := clean content in
  if parses cleaned then (cleaned, [cleaned])
  else
    let '(found, tried) := first_parsing (pattern_matches cleaned) in
    match found with
    | Some m => (m, cleaned :: tried)
    | None =>
        match outer_braces cleaned with
        | Some candidate =>
            (if parses candidate then candidate else cleaned,
             cleaned :: tried ++ [candidate])
        | None => (cleaned, cleaned :: tried)
        end
    end.

(** The texts [json.loads] is called on, in order. *)
Definition parse_attempts (content : text) : list text :=
  snd (extract_json_logged content).

(* ================================================================== *)
(** ** Outcomes of effectful code *)

(** How a request of the [requests] library can fail before any response
    arrives. *)
Inductive transport_error : Type :=
| ConnectionFailed
| TimedOut.

(** How running the listing command can fail. *)
Inductive process_error : Type :=
| CommandNotFound
| NonZeroExit (code : Z)
| CommandTimedOut.

Inductive exn : Type :=
| RuntimeError (msg : text)
| JSONDecodeError
| AttributeError
| TypeError
| ValueError
| IndexError
| HTTPError (status : Z)
| RequestException (e : transport_error)
| SubprocessError (e : process_error)
| EOFError
| KeyboardInterrupt.

(** [isinstance(e, Exception)]: everything above but [KeyboardInterrupt],
    which derives from [BaseException] only. *)
Definition is_Exception (e : exn) : bool :=
  match e with KeyboardInterrupt => false | _ => true end.

(** A call returns a value, raises, or leaves through [sys.exit]. *)
Inductive outcome (A : Type) : Type :=
| Returns (a : A)
| Raises (e : exn)
| Exits (code : Z).
Arguments Returns {A} a.
Arguments Raises {A} e.
Arguments Exits {A} code.

Definition bind {A B : Type} (m : outcome A) (k : A -> outcome B) : outcome B :=
  match m with
  | Returns a => k a
  | Raises e => Raises e
  | Exits c => Exits c
  end.

Notation "'do' x <- m ; k" := (bind m (fun x => k))
  (at level 10, x name, m at level 100, k at level 200).

(** [try: body  except Exception: return handler] *)
Definition try_except {A : Type} (body : outcome A) (handler : A) : outcome A :=
  match body with
  | Raises e => if is_Exception e then Returns handler else Raises e
  | other => other
  end.

(** An HTTP response as the clients read it. *)
Record response : Type := Response { status_code : Z; body : text }.

Inductive transport : Type :=
| Fails (e : transport_error)
| Responds (r : response).

(** [str(n)] for an integer. *)
Definition str_of_Z (z : Z) : text :=
  list_ascii_of_string (DecimalString.NilZero.string_of_int (Z.to_int z)).

(** Truth value of a decoded document. *)
Definition truthy (v : json) : bool :=
  match v with
  | JNull => false
  | JBool b => b
  | JInt z => negb (z =? 0)%Z
  | JFloat m _ => negb (m =? 0)%Z
  | JNaN | JInf _ => true
  | JStr s => match s with [] => false | _ => true end
  | JArr l => match l with [] => false | _ => true end
  | JObj f => match f with [] => false | _ => true end
  end.

(** [d.get(key)] as an attribute access: only a dict has it; an absent key
    gives [None]. *)
Definition py_get (key : string) (d : json) : outcome json :=
  match d with
  | JObj f =>
      Returns (match dict_get (txt key) f with Some v => v | None => JNull end)
  | _ => Raises AttributeError
  end.
Arguments py_get key%_string d.

(** [d.get(key, default)] *)
Definition py_get_default (key : string) (default : json) (d : json)
  : outcome json :=
  match d with
  | JObj f =>
      Returns (match dict_get (txt key) f with Some v => v | None => default end)
  | _ => Raises AttributeError
  end.
Arguments py_get_default key%_string default d.

(** [a or b] on values. *)
Definition py_or (a b : json) : json := if truthy a then a else b.

(* ================================================================== *)
(** ** Schema and request ([_analysis_schema], [call_ollama]) *)

Definition jstr (s : string) : json := JStr (txt s).
Arguments jstr s%_string.

Definition field (k : string) (v : json) : text * json := (txt k, v).
Arguments field k%_string v.

Definition string_schema : json := JObj [field "type" (jstr "string")].

(** [{"type": "number", "minimum": 0.0, "maximum": 1.0}] *)
Definition unit_number_schema : json :=
  JObj [field "type" (jstr "number");
        field "minimum" (JFloat 0 (-1));
        field "maximum" (JFloat 10 (-1))].

Definition score_names : list text :=
  [txt "impact_size"; txt "time_proximity"; txt "clarity";
   txt "volatility_sensitivity"; txt "duration"].

Definition result_names : list text :=
  [txt "industry"; txt "company"; txt "symbol"; txt "direction";
   txt "confidence"; txt "reason"; txt "scores"].

Definition directions : list text := [txt "buy"; txt "sell"; txt "hold"].

Definition _analysis_schema : json :=
  JObj
    [field "type" (jstr "object");
     field "properties"
       (JObj
          [field "industry" string_schema;
           field "company" string_schema;
           field "symbol" string_schema;
           field "direction"
             (JObj [field "type" (jstr "string");
                    field "enum" (JArr (map JStr directions))]);
           field "confidence" unit_number_schema;
           field "reason" string_schema;
           field "scores"
             (JObj
                [field "type" (jstr "object");
                 field "properties"
                   (JObj (map (fun n => (n, unit_number_schema)) score_names));
                 field "required" (JArr (map JStr score_names));
                 field "additionalProperties" (JBool false)])]);
     field "required" (JArr (map JStr result_names));
     field "additionalProperties" (JBool false)].

(** [gpt_like = any(k in ml for k in ("gpt-oss", "deepseek", "r1"))] with
    [ml = model.lower()]. *)
Definition loose_markers : list text := [txt "gpt-oss"; txt "deepseek"; txt "r1"].

Definition gpt_like (model : text) : bool :=
  let ml := lower model in
  existsb (fun k => str_in k ml) loose_markers.

(** [fmt = "json" if gpt_like else _analysis_schema()] *)
Definition fmt (model : text) : json :=
  if gpt_like model then jstr "json" else _analysis_schema.

Definition system_instruction : text :=
  txt "Return ONLY valid JSON per the schema (or pure JSON if schema not supported). No markdown, no thoughts, no explanations.".

(** The [payload] dict of [call_ollama]. *)
Definition payload (model prompt : text) : json :=
  JObj
    [field "model" (JStr model);
     field "messages"
       (JArr [JObj [field "role" (jstr "system");
                    field "content" (JStr system_instruction)];
              JObj [field "role" (jstr "user");
                    field "content" (JStr prompt)]]);
     field "format" (fmt model);
     field "stream" (JBool false);
     field "options"
       (JObj [field "temperature" (JFloat 0 (-1));
              field "num_ctx" (JInt 4096)])].

(** [content]: the [content] entry of [data.get("message") or {}], the
    empty string when the entry is absent; the extractor then needs a
    string ([re.sub] raises [TypeError] on anything else). *)
Definition message_content (data : json) : outcome text :=
  do message <- py_get "message" data;
  do content <- py_get_default "content" (JStr []) (py_or message (JObj []));
  match content with
  | JStr s => Returns s
  | _ => Raises TypeError
  end.

(** The message of the final [RuntimeError] of [call_ollama]. *)
Definition non_json_message (json_text : text) : text :=
  txt "Model returned non-JSON content. Attempted to parse: "
  ++ firstn 200 json_text ++ txt "..."
  ++ (if 200 <? length json_text
      then txt " (truncated from " ++ str_of_Z (Z.of_nat (length json_text))
           ++ txt " chars)"
      else []).

(** What [call_ollama] does with the text of the model's message. *)
Definition decode_content (content : text) : outcome json :=
  let json_text := extract_json_from_response content in
  match json_loads json_text with
  | Some v => Returns v
  | None =>
      match outer_braces json_text with
      | Some candidate =>
          match json_loads candidate with
          | Some v => Returns v
          | None => Raises (RuntimeError (non_json_message json_text))
          end
      | None => Raises (RuntimeError (non_json_message json_text))
      end
  end.

(** [call_ollama] of tests/test_model.py.  [backend] is the chat endpoint:
    it receives the payload and answers or fails.  The spinner only writes
    to the error stream and is left out. *)
Definition call_ollama (backend : json -> transport) (model prompt : text)
  : outcome json :=
  match backend (payload model prompt) with
  | Fails e => Raises (RequestException e)
  | Responds resp =>
      if negb (status_code resp =? 200)%Z then
        Raises (RuntimeError (txt "Ollama HTTP " ++ str_of_Z (status_code resp)
                              ++ txt ": " ++ firstn 400 (body resp)))
      else
        match json_loads (body resp) with
        | None => Raises JSONDecodeError
        | Some data =>
            do content <- message_content data;
            decode_content content
        end
  end.

(** A number in the closed interval from 0 to 1. *)
Definition in_unit_interval (v : json) : bool :=
  match v with
  | JInt z => ((0 <=? z) && (z <=? 1))%Z
  | JFloat m e =>
      ((0 <=? m) &&
       (if 0 <=? e then m * 10 ^ e <=? 1 else m <=? 10 ^ (- e)))%Z
  | _ => false
  end.

Definition is_string (v : json) : bool :=
  match v with JStr _ => true | _ => false end.

Definition has (check : json -> bool) (k : text) (f : list (text * json)) : bool :=
  match dict_get k f with Some v => check v | None => false end.

Definition only_keys (allowed : list text) (f : list (text * json)) : bool :=
  forallb (fun kv => mem (fst kv) allowed) f.

Definition valid_scores (v : json) : bool :=
  match v with
  | JObj f => forallb (fun k => has in_unit_interval k f) score_names
              && only_keys score_names f
  | _ => false
  end.

Definition valid_direction (v : json) : bool :=
  match v with JStr s => mem s directions | _ => false end.

(** The shape of an analysis result: section 3 of the specification
    (AnalysisResult and ScoreVector), which is what [_analysis_schema]
    describes.  Exactly the seven fields, strings where strings are asked,
    [direction] one of buy, sell, hold, [confidence] and exactly the five
    scores numbers in the closed interval from 0 to 1.  No function of
    the clients checks a decoded document against it. *)
Definition valid_analysis_result (v : json) : bool :=
  match v with
  | JObj f =>
      has is_string (txt "industry") f
      && has is_string (txt "company") f
      && has is_string (txt "symbol") f
      && has valid_direction (txt "direction") f
      && has in_unit_interval (txt "confidence") f
      && has is_string (txt "reason") f
      && has valid_scores (txt "scores") f
      && only_keys result_names f
  | _ => false
  end.

(* ================================================================== *)
(** ** Model discovery ([_list_models_via_api], [_list_models_via_cli]) *)

(** [r.raise_for_status()]: a status in 400..599 raises. *)
Definition raise_for_status (r : response) : outcome unit :=
  if ((400 <=? status_code r) && (status_code r <? 600))%Z
  then Raises (HTTPError (status_code r))
  else Returns tt.

(** [r.json()] *)
Definition response_json (r : response) : outcome json :=
  match json_loads (body r) with
  | Some v => Returns v
  | None => Raises JSONDecodeError
  end.

(** [for it in v]: the items of a list, the keys of a dict, the characters
    of a string; nothing else can be iterated. *)
Definition py_iter (v : json) : outcome (list json) :=
  match v with
  | JArr l => Returns l
  | JObj f => Returns (map (fun kv => JStr (fst kv)) f)
  | JStr s => Returns (map (fun c => JStr [c]) s)
  | _ => Raises TypeError
  end.

(** The loop over the entries: [name_of it] is looked up in every entry and
    kept when it is true. *)
Fixpoint collect_names (name_of : json -> outcome json) (items : list json)
  : outcome (list json) :=
  match items with
  | [] => Returns []
  | it :: rest =>
      do name <- name_of it;
      do names <- collect_names name_of rest;
      Returns (if truthy name then name :: names else names)
  end.

Definition is_container (v : json) : bool :=
  match v with JArr _ | JObj _ => true | _ => false end.

Definition string_of (v : json) : option text :=
  match v with JStr s => Some s | _ => None end.

Fixpoint all_strings (names : list json) : option (list text) :=
  match names with
  | [] => Some []
  | v :: rest =>
      match string_of v, all_strings rest with
      | Some s, Some l => Some (s :: l)
      | _, _ => None
      end
  end.

(** [sorted(set(names))] on the collected names.  A list or a dict is
    unhashable and strings do not compare with numbers, so both raise
    [TypeError].  A catalog is a list of strings: names that are all
    numbers or booleans, which Python would sort, are outside the model and
    raise here as well. *)
Definition sorted_names (names : list json) : outcome (list text) :=
  match all_strings names with
  | Some l => Returns (sorted_set l)
  | None => Raises TypeError
  end.

(** The [try] block of [_list_models_via_api] in tests/test_ollama.py and
    tests/test_model.py. *)
Definition list_api_ollama_body (reply : transport) : outcome (list text) :=
  match reply with
  | Fails e => Raises (RequestException e)
  | Responds r =>
      do _ <- raise_for_status r;
      do parsed <- response_json r;
      let data := py_or parsed (JObj []) in
      do models <- py_get_default "models" (JArr []) data;
      do items <- py_iter models;
      do names <- collect_names (py_get "name") items;
      sorted_names names
  end.

(** The [try] block of [_list_models_via_api] in tests/test_gpt.py. *)
Definition list_api_dmr_body (reply : transport) : outcome (list text) :=
  match reply with
  | Fails e => Raises (RequestException e)
  | Responds r =>
      do _ <- raise_for_status r;
      do data <- response_json r;
      do d <- py_get "data" data;
      do m <- py_get "models" data;
      let items := py_or d (py_or m (JArr [])) in
      do its <- py_iter items;
      do names <-
        collect_names
          (fun it => do i <- py_get "id" it;
                     do n <- py_get "name" it;
                     Returns (py_or i n))
          its;
      sorted_names names
  end.

(** The two backends. *)
Inductive flavor : Type := Ollama | DMR.

Definition _list_models_via_api (b : flavor) (reply : transport)
  : outcome (list text) :=
  try_except
    (match b with
     | Ollama => list_api_ollama_body reply
     | DMR => list_api_dmr_body reply
     end)
    [].

(** What running the listing command gives. *)
Inductive cli_reply : Type :=
| CliFails (e : process_error)
| CliOutput (out : text).

Definition slash : ascii := ascii_of_nat 47.
Definition colon : ascii := ascii_of_nat 58.

(** The test on the first token: [":" in tok[0]] for ollama,
    ["/" in tok[0] or ":" in tok[0]] for the Docker model runner. *)
Definition looks_like_model (b : flavor) (tok0 : text) : bool :=
  match b with
  | Ollama => str_in [colon] tok0
  | DMR => str_in [slash] tok0 || str_in [colon] tok0
  end.

(** The loop over the output lines. *)
Fixpoint cli_names (b : flavor) (lines : list text) : list text :=
  match lines with
  | [] => []
  | line :: rest =>
      match split_ws (strip line) with
      | tok0 :: _ =>
          if looks_like_model b tok0 then tok0 :: cli_names b rest
          else cli_names b rest
      | [] => cli_names b rest
      end
  end.

Definition _list_models_via_cli (b : flavor) (reply : cli_reply)
  : outcome (list text) :=
  try_except
    (match reply with
     | CliFails e => Raises (SubprocessError e)
     | CliOutput out => Returns (sorted_set (cli_names b (splitlines out)))
     end)
    [].

(** The calls a discovery makes to the outside. *)
Inductive call : Type := ApiQuery | CliListing.

(** [_list_models_via_api(api_base) or _list_models_via_cli()] (and, in
    tests/test_gpt.py, the same with an [if not models]): the value and the
    calls made, in order. *)
Definition get_installed_models (b : flavor) (api : transport) (cli : cli_reply)
  : outcome (list text) * list call :=
  match _list_models_via_api b api with
  | Returns [] => (_list_models_via_cli b cli, [ApiQuery; CliListing])
  | other => (other, [ApiQuery])
  end.

(* ================================================================== *)
(** ** Interactive model choosers ([choose_model_interactive]) *)

(** What the terminal delivers to one call of [input()]: a line, or an
    interrupt.  When the list of events is used up, the input is at its
    end and [input()] raises [EOFError]. *)
Inductive key_event : Type :=
| Line (s : text)
| CtrlC.

(** [s.isdigit()]: non-empty, and every character a digit; on the code
    points of the model these are 0-9 and the superscripts 1, 2 and 3. *)
Definition isdigit_chr (c : ascii) : bool :=
  let n := code c in
  is_digit c || (n =? 178) || (n =? 179) || (n =? 185).

Definition isdigit (s : text) : bool :=
  match s with
  | [] => false
  | _ => forallb isdigit_chr s
  end.

(** [int(s)] for a string that passed [isdigit]: the decimal value, or
    [ValueError] when a superscript is among the digits.  The
    interpreter's bound on the length of the string is not modelled. *)
Definition py_int (s : text) : outcome Z :=
  if forallb is_digit s
  then Returns (fst (fst (digits s)))
  else Raises ValueError.

(** [l[i]] for a non-negative index. *)
Definition py_index (l : list text) (i : Z) : outcome text :=
  match nth_error l (Z.to_nat i) with
  | Some x => Returns x
  | None => Raises IndexError
  end.

(** [candidates = pref + rest] of tests/test_ollama.py and
    tests/test_gpt.py. *)
Definition candidates (preferred models : list text) : list text :=
  let pref := filter (fun m => mem m models) preferred in
  let rest := filter (fun m => negb (mem m pref)) models in
  pref ++ rest.

(** The [while True] loop of the two clients that promote preferred
    models. *)
Fixpoint select_loop (cands : list text) (inputs : list key_event)
  : outcome text :=
  match inputs with
  | [] => Raises EOFError
  | CtrlC :: _ => Raises KeyboardInterrupt
  | Line l :: rest =>
      let sel := strip l in
      match sel with
      | [] => py_index cands 0
      | _ =>
          if isdigit sel then
            do idx <- py_int sel;
            if ((1 <=? idx) && (idx <=? Z.of_nat (length cands)))%Z
            then py_index cands (idx - 1)
            else select_loop cands rest
          else select_loop cands rest
      end
  end.

(** [choose_model_interactive(api_base, preferred)] of tests/test_ollama.py
    and tests/test_gpt.py, given the catalog the discovery returned. *)
Definition choose_model_preferred (models preferred : list text)
  (inputs : list key_event) : outcome text :=
  match models with
  | [] => Exits 1
  | _ => select_loop (candidates preferred models) inputs
  end.

(** The [while True] loop of tests/test_model.py. *)
Fixpoint default_loop (models : list text) (default_model : text)
  (inputs : list key_event) : outcome text :=
  match inputs with
  | [] => Exits 0
  | CtrlC :: _ => Exits 0
  | Line l :: rest =>
      let sel := lower (strip l) in
      if text_eqb sel (txt "q") then Exits 0
      else
        match sel with
        | [] =>
            if mem default_model models then Returns default_model
            else py_index models 0
        | _ =>
            let by_name :=
              if mem sel models then Returns sel
              else default_loop models default_model rest in
            if isdigit sel then
              do idx <- py_int sel;
              if ((1 <=? idx) && (idx <=? Z.of_nat (length models)))%Z
              then py_index models (idx - 1)
              else by_name
            else by_name
        end
  end.

(** [choose_model_interactive(models, default_model)] of
    tests/test_model.py. *)
Definition choose_model_default (models : list text) (default_model : text)
  (inputs : list key_event) : outcome text :=
  match models with
  | [] => Exits 1
  | _ => default_loop models default_model inputs
  end.

Definition DEFAULT_MODEL : text := txt "llama3".

(* ================================================================== *)
(** ** Prompt, strict client, file prompt and [main] *)

(** [s.replace(old, new)]: the non-overlapping occurrences of [old], found
    from the left, are replaced; [skip] counts the characters of the
    current occurrence still to pass.  With an empty [old], [new] is put
    before every character and at the end. *)
Fixpoint str_replace_from (old new : text) (skip : nat) (s : text) : text :=
  match s with
  | [] => []
  | c :: t =>
      match skip with
      | S k => str_replace_from old new k t
      | 0 =>
          if prefix_by chr_eqb old s
          then new ++ str_replace_from old new (length old - 1) t
          else c :: str_replace_from old new 0 t
      end
  end.

Definition str_replace (old new s : text) : text :=
  match old with
  | [] => new ++ flat_map (fun c => c :: new) s
  | _ => str_replace_from old new 0 s
  end.

Definition POST_MARKER : text := txt "## POST TEXT IS HERE ##".

(** [build_prompt(post_text)].  The template [PROMPT_TMPL] holds dashes
    above code point 255 and is taken as a parameter. *)
Definition build_prompt (PROMPT_TMPL post_text : text) : text :=
  str_replace POST_MARKER (strip post_text) PROMPT_TMPL.

(** The [payload] dict of [call_ollama] in tests/test_ollama.py: the schema
    is always sent. *)
Definition payload_strict (model prompt : text) : json :=
  JObj
    [field "model" (JStr model);
     field "messages"
       (JArr [JObj [field "role" (jstr "system");
                    field "content"
                      (jstr "Return ONLY valid JSON per the schema. No markdown, no explanations.")];
              JObj [field "role" (jstr "user");
                    field "content" (JStr prompt)]]);
     field "format" _analysis_schema;
     field "stream" (JBool false);
     field "options"
       (JObj [field "temperature" (JFloat 0 (-1));
              field "num_ctx" (JInt 4096)])].

(** What [call_ollama] of tests/test_ollama.py does with the text of the
    model's message: it parses it as it is. *)
Definition decode_strict (content : text) : outcome json :=
  match json_loads content with
  | Some v => Returns v
  | None =>
      Raises (RuntimeError (txt "Model returned non-JSON: " ++ firstn 400 content))
  end.

(** [call_ollama] of tests/test_ollama.py. *)
Definition call_ollama_strict (backend : json -> transport) (model prompt : text)
  : outcome json :=
  match backend (payload_strict model prompt) with
  | Fails e => Raises (RequestException e)
  | Responds resp =>
      if negb (status_code resp =? 200)%Z then
        Raises (RuntimeError (txt "Ollama HTTP " ++ str_of_Z (status_code resp)
                              ++ txt ": " ++ firstn 400 (body resp)))
      else
        match json_loads (body resp) with
        | None => Raises JSONDecodeError
        | Some data =>
            do content <- message_content data;
            decode_strict content
        end
  end.

(** [choose_model_interactive(api_base, preferred)] of tests/test_ollama.py
    and tests/test_gpt.py as a whole: discovery, then the choice. *)
Definition choose_model_interactive (b : flavor) (preferred : list text)
  (api : transport) (cli : cli_reply) (inputs : list key_event) : outcome text :=
  do models <- fst (get_installed_models b api cli);
  choose_model_preferred models preferred inputs.

(** The default preferred models of tests/test_ollama.py. *)
Definition PREFERRED_OLLAMA : list text := [txt "llama3.1:8b"; txt "qwen2.5:7b"].

(** [get_input_file(default_file)] of tests/test_model.py.  [path_exists] is
    [os.path.exists] on the file system of the run. *)
Fixpoint get_input_file (path_exists : text -> bool) (default_file : text)
  (inputs : list key_event) : outcome text :=
  match inputs with
  | [] => Exits 0
  | CtrlC :: _ => Exits 0
  | Line l :: rest =>
      let file_path := match strip l with [] => default_file | p => p end in
      if path_exists file_path then Returns file_path
      else get_input_file path_exists default_file rest
  end.

(** What reading the post file gives. *)
Inductive file_read : Type :=
| ReadFails
| ReadGives (post_text : text).

(** How a run ends: an exit status, or an exception nobody caught. *)
Inductive ending : Type :=
| Exit (code : Z)
| Uncaught (e : exn).

(** [main] of tests/test_ollama.py: how the run ends and the document it
    prints on standard output, if any.  [arg_model] is the [--model]
    option. *)
Definition main_ollama (PROMPT_TMPL : text) (file : file_read)
  (arg_model : option text) (api : transport) (cli : cli_reply)
  (inputs : list key_event) (backend : json -> transport)
  : ending * option json :=
  match file with
  | ReadFails => (Exit 1, None)
  | ReadGives post_text =>
      match strip post_text with
      | [] => (Exit 1, None)
      | _ =>
          let prompt := build_prompt PROMPT_TMPL post_text in
          let chosen :=
            match arg_model with
            | Some (c :: m) => Returns (c :: m)
            | _ => choose_model_interactive Ollama PREFERRED_OLLAMA api cli inputs
            end in
          match chosen with
          | Exits code => (Exit code, None)
          | Raises e => (Uncaught e, None)
          | Returns model =>
              match call_ollama_strict backend model prompt with
              | Returns result => (Exit 0, Some result)
              | Raises e =>
                  if is_Exception e then (Exit 2, None) else (Uncaught e, None)
              | Exits code => (Exit code, None)
              end
          end
      end
  end.

(* ================================================================== *)
(** ** The session of tests/test_model.py ([main]) *)

(** [main] of tests/test_model.py asks for a model, then for a file, then
    whether to go on, all on the same input.  The two prompts are the
    loops above, here with the input they leave unread. *)
Fixpoint default_loop_io (models : list text) (default_model : text)
  (inputs : list key_event) : outcome text * list key_event :=
  match inputs with
  | [] => (Exits 0, [])
  | CtrlC :: rest => (Exits 0, rest)
  | Line l :: rest =>
      let sel := lower (strip l) in
      if text_eqb sel (txt "q") then (Exits 0, rest)
      else
        match sel with
        | [] =>
            (if mem default_model models then Returns default_model
             else py_index models 0, rest)
        | _ =>
            let by_name :=
              if mem sel models then (Returns sel, rest)
              else default_loop_io models default_model rest in
            if isdigit sel then
              match py_int sel with
              | Returns idx =>
                  if ((1 <=? idx) && (idx <=? Z.of_nat (length models)))%Z
                  then (py_index models (idx - 1), rest)
                  else by_name
              | Raises e => (Raises e, rest)
              | Exits code => (Exits code, rest)
              end
            else by_name
        end
  end.

Definition choose_model_default_io (models : list text) (default_model : text)
  (inputs : list key_event) : outcome text * list key_event :=
  match models with
  | [] => (Exits 1, inputs)
  | _ => default_loop_io models default_model inputs
  end.

Fixpoint get_input_file_io (path_exists : text -> bool) (default_file : text)
  (inputs : list key_event) : outcome text * list key_event :=
  match inputs with
  | [] => (Exits 0, [])
  | CtrlC :: rest => (Exits 0, rest)
  | Line l :: rest =>
      let file_path := match strip l with [] => default_file | p => p end in
      if path_exists file_path then (Returns file_path, rest)
      else get_input_file_io path_exists default_file rest
  end.

Definition DEFAULT_FILE : text := txt "post.txt".

(** The answers that start another round. *)
Definition again_answers : list text := [txt "y"; txt "yes"].

(** The [while True] loop of [main] in tests/test_model.py: how the run
    ends and the documents it prints, in order.  [read_file] is [open] and
    [read] on the file system of the run, [backend round] the chat endpoint
    at the given round of the loop.  Every round that goes on has read at
    least one line, so [fuel] above the number of input events is never
    used up; [None] stands for fuel used up. *)
Fixpoint session (fuel : nat) (PROMPT_TMPL : text) (path_exists : text -> bool)
  (read_file : text -> file_read) (backend : nat -> json -> transport)
  (models : list text) (round : nat) (inputs : list key_event)
  : option (ending * list json) :=
  match fuel with
  | 0 => None
  | S fuel' =>
      let next := session fuel' PROMPT_TMPL path_exists read_file backend
                          models (S round) in
      match choose_model_default_io models DEFAULT_MODEL inputs with
      | (Exits code, _) => Some (Exit code, [])
      | (Raises e, _) => Some (Uncaught e, [])
      | (Returns selected_model, inputs1) =>
          match get_input_file_io path_exists DEFAULT_FILE inputs1 with
          | (Exits code, _) => Some (Exit code, [])
          | (Raises e, _) => Some (Uncaught e, [])
          | (Returns input_file, inputs2) =>
              match read_file input_file with
              | ReadFails => next inputs2
              | ReadGives post_text =>
                  match strip post_text with
                  | [] => next inputs2
                  | _ =>
                      match call_ollama (backend round) selected_model
                              (build_prompt PROMPT_TMPL post_text) with
                      | Exits code => Some (Exit code, [])
                      | Raises e =>
                          if is_Exception e then next inputs2
                          else Some (Uncaught e, [])
                      | Returns result =>
                          match inputs2 with
                          | [] => Some (Uncaught EOFError, [result])
                          | CtrlC :: _ =>
                              Some (Uncaught KeyboardInterrupt, [result])
                          | Line l :: inputs3 =>
                              if mem (lower (strip l)) again_answers then
                                match next inputs3 with
                                | Some (e, printed) =>
                                    Some (e, result :: printed)
                                | None => None
                                end
                              else Some (Exit 0, [result])
                          end
                      end
                  end
              end
          end
      end
  end.

(** [main] of tests/test_model.py: the catalog is discovered once, then the
    loop runs. *)
Definition main_model (PROMPT_TMPL : text) (path_exists : text -> bool)
  (read_file : text -> file_read) (backend : nat -> json -> transport)
  (api : transport) (cli : cli_reply) (inputs : list key_event)
  : option (ending * list json) :=
  match fst (get_installed_models Ollama api cli) with
  | Returns models =>
      session (S (length inputs)) PROMPT_TMPL path_exists read_file backend
              models 0 inputs
  | Raises e => Some (Uncaught e, [])
  | Exits code => Some (Exit code, [])
  end.

(* ================================================================== *)
(** ** The Docker model runner client (tests/test_gpt.py) *)

(** The default preferred models of tests/test_gpt.py. *)
Definition PREFERRED_DMR : list text :=
  [txt "ai/gpt-oss:20b"; txt "ai/qwen3:8B-Q4_K_M"].

(** The [payload] dict of [call_dmr]. *)
Definition payload_dmr (model prompt : text) : json :=
  JObj
    [field "model" (JStr model);
     field "messages"
       (JArr [JObj [field "role" (jstr "system");
                    field "content"
                      (jstr "Return ONLY valid JSON per the schema. No markdown, no explanations.")];
              JObj [field "role" (jstr "user");
                    field "content" (JStr prompt)]]);
     field "temperature" (JFloat 1 (-1));
     field "response_format" (JObj [field "type" (jstr "json_object")]);
     field "max_tokens" (JInt 600)].

(** [call_dmr] subscripts the [choices] entry, which raises [KeyError]
    on an object; no other client raises it, so the outcomes of this
    client add it to those above. *)
Inductive dmr_outcome (A : Type) : Type :=
| Std (o : outcome A)
| RaisesKeyError.
Arguments Std {A} o.
Arguments RaisesKeyError {A}.

Definition dmr_bind {A B : Type} (m : dmr_outcome A) (k : A -> dmr_outcome B)
  : dmr_outcome B :=
  match m with
  | Std (Returns a) => k a
  | Std (Raises e) => Std (Raises e)
  | Std (Exits code) => Std (Exits code)
  | RaisesKeyError => RaisesKeyError
  end.

(** [x[0]]: the first item of a list, the first character of a string;
    [IndexError] when they are empty, [KeyError] on a dict (its keys are
    strings), [TypeError] on what cannot be subscripted. *)
Definition first_item (x : json) : dmr_outcome json :=
  match x with
  | JArr (v :: _) => Std (Returns v)
  | JArr [] => Std (Raises IndexError)
  | JStr (c :: _) => Std (Returns (JStr [c]))
  | JStr [] => Std (Raises IndexError)
  | JObj _ => RaisesKeyError
  | _ => Std (Raises TypeError)
  end.

(** [data.get("choices", [{}])[0].get("message", {}).get("content", "")] *)
Definition dmr_content (data : json) : dmr_outcome json :=
  dmr_bind (Std (py_get_default "choices" (JArr [JObj []]) data)) (fun choices =>
  dmr_bind (first_item choices) (fun choice =>
  dmr_bind (Std (py_get_default "message" (JObj []) choice)) (fun message =>
  Std (py_get_default "content" (JStr []) message)))).

(** [call_dmr] of tests/test_gpt.py.  [json.loads] raises [TypeError] on
    what is not a string. *)
Definition call_dmr (backend : json -> transport) (model prompt : text)
  : dmr_outcome json :=
  match backend (payload_dmr model prompt) with
  | Fails e => Std (Raises (RequestException e))
  | Responds resp =>
      if negb (status_code resp =? 200)%Z then
        Std (Raises (RuntimeError (txt "DMR HTTP " ++ str_of_Z (status_code resp)
                                   ++ txt ": " ++ firstn 400 (body resp))))
      else
        match json_loads (body resp) with
        | None => Std (Raises JSONDecodeError)
        | Some data =>
            dmr_bind (dmr_content data) (fun content =>
              match content with
              | JStr s => Std (decode_strict s)
              | _ => Std (Raises TypeError)
              end)
        end
  end.

(** [main] of tests/test_gpt.py: how the run ends and the document it
    prints, if any.  [KeyError] is an [Exception] and is caught like the
    others. *)
Definition main_dmr (PROMPT_TMPL : text) (file : file_read)
  (arg_model : option text) (api : transport) (cli : cli_reply)
  (inputs : list key_event) (backend : json -> transport)
  : ending * option json :=
  match file with
  | ReadFails => (Exit 1, None)
  | ReadGives post_text =>
      match strip post_text with
      | [] => (Exit 1, None)
      | _ =>
          let prompt := build_prompt PROMPT_TMPL post_text in
          let chosen :=
            match arg_model with
            | Some (c :: m) => Returns (c :: m)
            | _ => choose_model_interactive DMR PREFERRED_DMR api cli inputs
            end in
          match chosen with
          | Exits code => (Exit code, None)
          | Raises e => (Uncaught e, None)
          | Returns model =>
              match call_dmr backend model prompt with
              | Std (Returns result) => (Exit 0, Some result)
              | Std (Raises e) =>
                  if is_Exception e then (Exit 2, None) else (Uncaught e, None)
              | Std (Exits code) => (Exit code, None)
              | RaisesKeyError => (Exit 2, None)
              end
          end
      end
  end.

(* ================================================================== *)
(** ** Notions used in the statements *)

(** A scanner that consumes at least one character. *)
Definition shrinks (scan : text -> option (json * text)) : Prop :=
  forall u v rest, scan u = Some (v, rest) -> length rest < length u.

(** [k] occurs in [s] as a contiguous substring. *)
Definition occurs (k s : text) : Prop := exists pre post, s = pre ++ k ++ post.

(** A returned model is an entry of [catalog]. *)
Definition returns_member (o : outcome text) (catalog : list text) : Prop :=
  match o with
  | Returns m => In m catalog
  | _ => True
  end.

(** The line feed. *)
Definition newline : text := [ascii_of_nat 10].

(** An outcome a [try ... except Exception] settles: a value, or an
    exception deriving from [Exception]. *)
Definition catchable {A : Type} (o : outcome A) : Prop :=
  match o with
  | Returns _ => True
  | Raises e => is_Exception e = true
  | Exits _ => False
  end.

(** The name looked up in one entry: [it.get("name")] for ollama,
    [it.get("id") or it.get("name")] for the Docker model runner. *)
Definition entry_name (b : flavor) (e : list (text * json)) : json :=
  let get k := match dict_get (txt k) e with Some v => v | None => JNull end in
  match b with
  | Ollama => get "name"%string
  | DMR => py_or (get "id"%string) (get "name"%string)
  end.

(** The list of entries in the decoded body: [data.get("models", [])] of
    [r.json() or {}] for ollama, [data.get("data") or data.get("models")
    or []] for the Docker model runner. *)
Definition entries_field (b : flavor) (body_fields : list (text * json)) : json :=
  let get k := match dict_get (txt k) body_fields with
               | Some v => v | None => JNull end in
  match b with
  | Ollama =>
      match body_fields with
      | [] => JArr []
      | _ => match dict_get (txt "models") body_fields with
             | Some v => v | None => JArr [] end
      end
  | DMR => py_or (get "data"%string) (py_or (get "models"%string) (JArr []))
  end.

(** A name that is a string, or one the loop skips. *)
Definition string_or_false (v : json) : Prop :=
  match v with
  | JStr _ => True
  | _ => truthy v = false
  end.

(** [r] matches at no position of [s]. *)
Definition never_matches (r : regex) (s : text) : Prop :=
  forall pre t, s = pre ++ t -> run r t = [].

(** Every strategy of the extractor fails on [content]: the cleaned text
    does not parse, no candidate of the four patterns parses, and the span
    from the first opening to the last closing brace, if there is one, does
    not parse. *)
Definition exhausted (content : text) : bool :=
  let cleaned := clean content in
  negb (parses cleaned)
  && forallb (fun m => negb (parses m)) (pattern_matches cleaned)
  && match outer_braces cleaned with
     | Some candidate => negb (parses candidate)
     | None => true
     end.

(** The stub backend of the end-to-end property: it answers 200 with a
    body whose message content is the string literal holding [content],
    which is written with the escapes it needs. *)
Definition stub_backend (content : text) (_ : json) : transport :=
  Responds (Response 200
              (qtxt "{'message':{'role':'assistant','content':'" ++ content
               ++ qtxt "'}}")).

(** [s] begins with an opening brace. *)
Definition starts_with_lbrace (s : text) : bool :=
  match s with
  | c :: _ => chr_eqb lbrace c
  | [] => false
  end.

(** The object of the end-to-end property, with a given reason. *)
Definition sample_result (reason : text) : text :=
  qtxt "{'industry':'Tech','company':'X','symbol':'X','direction':'buy','confidence':0.8,'reason':'"
  ++ reason
  ++ qtxt "','scores':{'impact_size':0.8,'time_proximity':0.9,'clarity':0.7,'volatility_sensitivity':0.6,'duration':0.5}}".

(** [a] is [b] with some characters deleted. *)
Inductive subseq : text -> text -> Prop :=
| subseq_nil : subseq [] []
| subseq_skip (c : ascii) (a b : text) : subseq a b -> subseq a (c :: b)
| subseq_keep (c : ascii) (a b : text) : subseq a b -> subseq (c :: a) (c :: b).

(** The character that fences are made of. *)
Definition backtick : ascii := ascii_of_nat 96.

(** The three markers occur nowhere in [s], in any letter case. *)
Definition unmarked (s : text) : Prop :=
  icontains marker_thinking s = false
  /\ icontains marker_done s = false
  /\ icontains marker_respond s = false.

(** What is left after a closing brace at the start of [rest]. *)
Definition after_rbrace (rest : text) : list (option text * text) :=
  match rest with
  | c :: r => if chr_eqb rbrace c then [(None, r)] else []
  | [] => []
  end.

(** The characters of a decimal numeral, most significant digit first. *)
Definition numeral (d : Decimal.uint) : text :=
  list_ascii_of_string (NilEmpty.string_of_uint d).

(** A document the session may print: the client's answer, at some
    round, for a model of the catalog and the prompt built from a file that
    exists, can be read and is not blank. *)
Definition printed_by_session (PROMPT_TMPL : text) (path_exists : text -> bool)
  (read_file : text -> file_read) (backend : nat -> json -> transport)
  (models : list text) (doc : json) : Prop :=
  exists round model path post_text,
    In model models
    /\ path_exists path = true
    /\ read_file path = ReadGives post_text
    /\ strip post_text <> []
    /\ call_ollama (backend round) model (build_prompt PROMPT_TMPL post_text)
       = Returns doc.

(** How a session with a catalog may end. *)
Definition session_ending (e : ending) (printed : list json) : Prop :=
  match e with
  | Exit code => code = 0%Z
  | Uncaught e =>
      e = ValueError
      \/ ((e = EOFError \/ e = KeyboardInterrupt) /\ printed <> [])
  end.

(** A link is missing on the way to the text of the answer: no [choices]
    entry; or a first choice that is an object without a [message] entry;
    or a message that is an object without a [content] entry. *)
Definition missing_link (data : json) : bool :=
  match data with
  | JObj fields =>
      match dict_get (txt "choices") fields with
      | None => true
      | Some (JArr (JObj choice :: _)) =>
          match dict_get (txt "message") choice with
          | None => true
          | Some (JObj message) =>
              match dict_get (txt "content") message with
              | None => true
              | Some _ => false
              end
          | Some _ => false
          end
      | Some _ => false
      end
  | _ => false
  end.

(** [rest] is what is left of [s] after a prefix of it. *)
Definition suffix_of (rest s : text) : Prop := exists consumed, s = consumed ++ rest.

(* ================================================================== *)
(** * Properties *)

(** ** Sample evaluations *)

Example split_ws_line :
  split_ws (txt "  ai/gpt-oss:20b   11GB  2 days ago ") =
  [txt "ai/gpt-oss:20b"; txt "11GB"; txt "2"; txt "days"; txt "ago"].
Proof. reflexivity. Qed.

Example loads_valid :
  json_loads (qtxt "{'valid':'json'}") =
  Some (JObj [(txt "valid", JStr (txt "json"))]).
Proof. reflexivity. Qed.

(** ** JSON decoding: the fuel is enough *)

Lemma skip_ws_length (s : text) : length (skip_ws s) <= length s.
Proof.
  induction s as [|c s IH]; cbn [skip_ws length]; [lia|].
  destruct (is_json_ws c); cbn [length]; lia.
Qed.

Lemma scanstring_shrinks_upto (n : nat) :
  forall s r rest,
    length s <= n -> scanstring s = Some (r, rest) -> length rest < length s.
Proof.
  induction n as [|n IH]; intros s r rest Hn.
  - destruct s; [discriminate | cbn [length] in Hn; lia].
  - destruct s as [|c t]; [discriminate|]. cbn [length] in Hn |- *.
    cbn [scanstring].
    destruct (code c =? 34); [intros [= _ <-]; lia|].
    destruct (code c =? 92).
    + destruct t as [|e t1]; [discriminate|].
      destruct (code e =? 117).
      * destruct t1 as [|h1 [|h2 [|h3 [|h4 t2]]]]; try discriminate.
        destruct (hex_val h1), (hex_val h2), (hex_val h3), (hex_val h4);
          try discriminate.
        destruct (scanstring t2) as [[r' rest']|] eqn:E; [|discriminate].
        intros [= _ <-]. apply IH in E; cbn [length] in *; lia.
      * destruct (simple_escape e); [|discriminate].
        destruct (scanstring t1) as [[r' rest']|] eqn:E; [|discriminate].
        intros [= _ <-]. apply IH in E; cbn [length] in *; lia.
    + destruct (code c <? 32); [discriminate|].
      destruct (scanstring t) as [[r' rest']|] eqn:E; [|discriminate].
      intros [= _ <-]. apply IH in E; lia.
Qed.

Lemma scanstring_shrinks (s r rest : text) :
  scanstring s = Some (r, rest) -> length rest < length s.
Proof. apply (scanstring_shrinks_upto (length s)). lia. Qed.

Lemma digits_aux_length (s : text) :
  forall acc n, length (snd (digits_aux acc n s)) <= length s.
Proof.
  induction s as [|c s IH]; intros acc n; cbn [digits_aux]; [cbn; lia|].
  destruct (is_digit c); [|cbn; lia].
  specialize (IH (acc * 10 + digit_val c)%Z (S n)). cbn [length]. lia.
Qed.

Lemma strip_prefix_length (p s rest : text) :
  strip_prefix p s = Some rest -> length s = length p + length rest.
Proof.
  revert s; induction p as [|a p IH]; intros s; cbn [strip_prefix].
  - intros [= <-]. reflexivity.
  - destruct s as [|b s]; [discriminate|].
    destruct (chr_eqb a b); [|discriminate].
    intro H. apply IH in H. cbn [length]. lia.
Qed.

Lemma int_part_shrinks (s : text) (v : Z) (rest : text) :
  int_part s = Some (v, rest) -> length rest < length s.
Proof.
  unfold int_part. destruct s as [|c t]; [discriminate|].
  destruct (code c =? 48); [intros [= _ <-]; cbn; lia|].
  destruct (is_digit c) eqn:D; [|discriminate].
  unfold digits. cbn [digits_aux]. rewrite D.
  pose proof (digits_aux_length t (0 * 10 + digit_val c)%Z 1) as H.
  destruct (digits_aux (0 * 10 + digit_val c)%Z 1 t) as [[v' n'] rest'].
  intros [= _ <-]. cbn [snd length] in *. lia.
Qed.

Lemma frac_part_length (s : text) (v : Z) (n : nat) (rest : text) :
  frac_part s = Some (v, n, rest) -> length rest <= length s.
Proof.
  unfold frac_part. destruct s as [|c t]; [discriminate|].
  destruct (code c =? 46); [|discriminate].
  unfold digits. pose proof (digits_aux_length t 0%Z 0) as H.
  destruct (digits_aux 0%Z 0 t) as [[v' n'] rest'].
  destruct n'; [discriminate|]. intros [= _ _ <-]. cbn [snd length] in *. lia.
Qed.

Lemma exp_part_length (s : text) (v : Z) (rest : text) :
  exp_part s = Some (v, rest) -> length rest <= length s.
Proof.
  unfold exp_part. destruct s as [|c t]; [discriminate|].
  destruct ((code c =? 101) || (code c =? 69)); [|discriminate].
  assert (H : forall (neg : bool) (t1 : text), length t1 <= length t ->
            (let '(v0, n, rest0) := digits t1 in
             match n with
             | 0 => @None (Z * text)
             | S _ => Some (if neg then (- v0)%Z else v0, rest0)
             end) = Some (v, rest) -> length rest <= length (c :: t)).
  { intros neg t1 Ht1. unfold digits.
    pose proof (digits_aux_length t1 0%Z 0) as H.
    destruct (digits_aux 0%Z 0 t1) as [[v' n'] rest'].
    destruct n'; [discriminate|]. intros [= _ <-]. cbn [snd length] in *. lia. }
  destruct t as [|d t']; [apply (H false); lia|].
  destruct (code d =? 45); [apply (H true); cbn; lia|].
  destruct (code d =? 43); [apply (H false); cbn; lia|].
  apply (H false); lia.
Qed.

Lemma match_number_shrinks (s : text) (v : json) (rest : text) :
  match_number s = Some (v, rest) -> length rest < length s.
Proof.
  unfold match_number.
  assert (H : forall (neg : bool) (s1 : text), length s1 <= length s ->
            match int_part s1 with
            | None => None
            | Some (i, s2) =>
                let sg (z : Z) := if neg then (- z)%Z else z in
                match frac_part s2 with
                | Some (fv, fn, s3) =>
                    let mant := (i * 10 ^ Z.of_nat fn + fv)%Z in
                    match exp_part s3 with
                    | Some (e, s4) => Some (JFloat (sg mant) (e - Z.of_nat fn), s4)
                    | None => Some (JFloat (sg mant) (- Z.of_nat fn), s3)
                    end
                | None =>
                    match exp_part s2 with
                    | Some (e, s4) => Some (JFloat (sg i) e, s4)
                    | None => Some (JInt (sg i), s2)
                    end
                end
            end = Some (v, rest) -> length rest < length s).
  { intros neg s1 Hs1.
    destruct (int_part s1) as [[i s2]|] eqn:Ei; [|discriminate].
    apply int_part_shrinks in Ei.
    destruct (frac_part s2) as [[[fv fn] s3]|] eqn:Ef.
    - apply frac_part_length in Ef.
      destruct (exp_part s3) as [[e s4]|] eqn:Ee.
      + apply exp_part_length in Ee. intros [= _ <-]. lia.
      + intros [= _ <-]. lia.
    - destruct (exp_part s2) as [[e s4]|] eqn:Ee.
      + apply exp_part_length in Ee. intros [= _ <-]. lia.
      + intros [= _ <-]. lia. }
  destruct s as [|c t]; [apply (H false); lia|].
  destruct (code c =? 45); [apply (H true); cbn; lia | apply (H false); lia].
Qed.

Lemma object_members_shrinks (scan : text -> option (json * text)) :
  shrinks scan ->
  forall n acc s v rest,
    object_members scan n acc s = Some (v, rest) -> length rest < length s.
Proof.
  intros Hscan. induction n as [|n IH]; intros acc s v rest; cbn [object_members];
    [discriminate|].
  destruct (scanstring s) as [[key s1]|] eqn:Ek; [|discriminate].
  apply scanstring_shrinks in Ek.
  pose proof (skip_ws_length s1) as H1.
  destruct (skip_ws s1) as [|c s2]; [discriminate|].
  destruct (code c =? 58); [|discriminate].
  pose proof (skip_ws_length s2) as H2.
  destruct (scan (skip_ws s2)) as [[v1 s3]|] eqn:Ev; [|discriminate].
  apply Hscan in Ev.
  pose proof (skip_ws_length s3) as H3.
  destruct (skip_ws s3) as [|d s4]; [discriminate|].
  cbn [length] in *.
  destruct (code d =? 125); [intros [= _ <-]; lia|].
  destruct (code d =? 44); [|discriminate].
  pose proof (skip_ws_length s4) as H4.
  destruct (skip_ws s4) as [|q s5]; [discriminate|].
  destruct (code q =? 34); [|discriminate].
  intro H. apply IH in H. cbn [length] in *. lia.
Qed.

Lemma array_items_shrinks (scan : text -> option (json * text)) :
  shrinks scan ->
  forall n acc s v rest,
    array_items scan n acc s = Some (v, rest) -> length rest < length s.
Proof.
  intros Hscan. induction n as [|n IH]; intros acc s v rest; cbn [array_items];
    [discriminate|].
  destruct (scan s) as [[v1 s1]|] eqn:Ev; [|discriminate].
  apply Hscan in Ev.
  pose proof (skip_ws_length s1) as H1.
  destruct (skip_ws s1) as [|d s2]; [discriminate|].
  cbn [length] in *.
  destruct (code d =? 93); [intros [= _ <-]; lia|].
  destruct (code d =? 44); [|discriminate].
  pose proof (skip_ws_length s2) as H2.
  intro H. apply IH in H. lia.
Qed.

Lemma scan_once_shrinks (fuel : nat) : shrinks (scan_once fuel).
Proof.
  induction fuel as [|f IH]; intros s v rest; cbn [scan_once]; [discriminate|].
  destruct s as [|c t]; [discriminate|].
  destruct (code c =? 34).
  { destruct (scanstring t) as [[r rest']|] eqn:E; [|discriminate].
    apply scanstring_shrinks in E. intros [= _ <-]. cbn [length]. lia. }
  destruct (code c =? 123).
  { unfold JSONObject. pose proof (skip_ws_length t) as Ht.
    destruct (skip_ws t) as [|d t']; [discriminate|]. cbn [length] in *.
    destruct (code d =? 125); [intros [= _ <-]; lia|].
    destruct (code d =? 34); [|discriminate].
    intro H. apply (object_members_shrinks _ IH) in H. lia. }
  destruct (code c =? 91).
  { unfold JSONArray. pose proof (skip_ws_length t) as Ht.
    destruct (skip_ws t) as [|d t'] eqn:Et; [discriminate|]. cbn [length] in *.
    destruct (code d =? 93); [intros [= _ <-]; lia|].
    intro H. apply (array_items_shrinks _ IH) in H. cbn [length] in H. lia. }
  repeat match goal with
         | |- match strip_prefix ?p ?u with _ => _ end = _ -> _ =>
             let E := fresh "E" in
             destruct (strip_prefix p u) eqn:E;
             [apply strip_prefix_length in E; intros [= _ <-];
              cbn [length txt list_ascii_of_string] in E |- *; lia|]
         end.
  apply match_number_shrinks.
Qed.

Lemma object_members_agree (scan1 scan2 : text -> option (json * text)) :
  shrinks scan1 ->
  forall n1 n2 acc s,
    length s <= n1 -> length s <= n2 ->
    (forall u, length u < length s -> scan1 u = scan2 u) ->
    object_members scan1 n1 acc s = object_members scan2 n2 acc s.
Proof.
  intros Hscan. induction n1 as [|n1 IH]; intros n2 acc s H1 H2 Hag.
  - destruct s; [|cbn [length] in H1; lia].
    destruct n2; reflexivity.
  - destruct n2 as [|n2].
    { destruct s; [reflexivity | cbn [length] in H2; lia]. }
    cbn [object_members].
    destruct (scanstring s) as [[key s1]|] eqn:Ek; [|reflexivity].
    apply scanstring_shrinks in Ek.
    pose proof (skip_ws_length s1) as L1.
    destruct (skip_ws s1) as [|c s2]; [reflexivity|].
    destruct (code c =? 58); [|reflexivity].
    pose proof (skip_ws_length s2) as L2. cbn [length] in *.
    rewrite <- (Hag (skip_ws s2)) by lia.
    destruct (scan1 (skip_ws s2)) as [[v1 s3]|] eqn:Ev; [|reflexivity].
    apply Hscan in Ev.
    pose proof (skip_ws_length s3) as L3.
    destruct (skip_ws s3) as [|d s4]; [reflexivity|].
    destruct (code d =? 125); [reflexivity|].
    destruct (code d =? 44); [|reflexivity].
    pose proof (skip_ws_length s4) as L4.
    destruct (skip_ws s4) as [|q s5]; [reflexivity|].
    destruct (code q =? 34); [|reflexivity].
    cbn [length] in *.
    apply IH; try lia. intros u Hu. apply Hag. lia.
Qed.

Lemma array_items_agree (scan1 scan2 : text -> option (json * text)) :
  shrinks scan1 ->
  forall n1 n2 acc s,
    length s <= n1 -> length s <= n2 ->
    (forall u, length u <= length s -> scan1 u = scan2 u) ->
    array_items scan1 n1 acc s = array_items scan2 n2 acc s.
Proof.
  intros Hscan.
  assert (Hnil : forall acc n, array_items scan1 n acc [] = None).
  { intros acc [|n]; cbn [array_items]; [reflexivity|].
    destruct (scan1 []) as [[v r]|] eqn:E; [|reflexivity].
    apply Hscan in E. cbn [length] in E. lia. }
  induction n1 as [|n1 IH]; intros n2 acc s H1 H2 Hag.
  - destruct s; [|cbn [length] in H1; lia].
    destruct n2; [reflexivity|]. cbn [array_items].
    rewrite <- (Hag []) by (cbn; lia).
    destruct (scan1 []) as [[v r]|] eqn:E; [|reflexivity].
    apply Hscan in E. cbn [length] in E. lia.
  - destruct n2 as [|n2].
    { destruct s; [apply Hnil | cbn [length] in H2; lia]. }
    cbn [array_items]. rewrite <- (Hag s) by lia.
    destruct (scan1 s) as [[v1 s1]|] eqn:Ev; [|reflexivity].
    apply Hscan in Ev.
    pose proof (skip_ws_length s1) as L1.
    destruct (skip_ws s1) as [|d s2]; [reflexivity|].
    destruct (code d =? 93); [reflexivity|].
    destruct (code d =? 44); [|reflexivity].
    pose proof (skip_ws_length s2) as L2. cbn [length] in *.
    apply IH; try lia. intros u Hu. apply Hag. lia.
Qed.

Lemma scan_once_agree (f1 : nat) :
  forall f2 s,
    length s < f1 -> length s < f2 -> scan_once f1 s = scan_once f2 s.
Proof.
  induction f1 as [|f1 IH]; intros f2 s H1 H2; [lia|].
  destruct f2 as [|f2]; [lia|]. cbn [scan_once].
  destruct s as [|c t]; [reflexivity|]. cbn [length] in *.
  destruct (code c =? 34); [reflexivity|].
  destruct (code c =? 123).
  { unfold JSONObject. pose proof (skip_ws_length t) as Ht.
    destruct (skip_ws t) as [|d t']; [reflexivity|]. cbn [length] in *.
    destruct (code d =? 125); [reflexivity|].
    destruct (code d =? 34); [|reflexivity].
    apply object_members_agree; try lia; [apply scan_once_shrinks|].
    intros u Hu. apply IH; lia. }
  destruct (code c =? 91); [|reflexivity].
  unfold JSONArray. pose proof (skip_ws_length t) as Ht.
  destruct (skip_ws t) as [|d t']; [reflexivity|]. cbn [length] in *.
  destruct (code d =? 93); [reflexivity|].
  apply array_items_agree; cbn [length]; try lia; [apply scan_once_shrinks|].
  intros u Hu. apply IH; lia.
Qed.

(** More fuel than the length of the text changes nothing: [json_loads]
    never fails for lack of fuel. *)
Lemma json_loads_fuel (s : text) (extra : nat) :
  scan_once (S (length s) + extra) (skip_ws s)
  = scan_once (S (length s)) (skip_ws s).
Proof.
  pose proof (skip_ws_length s). apply scan_once_agree; lia.
Qed.

(** The bounds on the number of members and items are never reached. *)
Lemma container_bounds_enough (fuel : nat) (s : text) (extra : nat) :
  (forall acc, object_members (scan_once fuel) (length s + extra) acc s
               = object_members (scan_once fuel) (length s) acc s)
  /\ (forall acc, array_items (scan_once fuel) (length s + extra) acc s
                  = array_items (scan_once fuel) (length s) acc s).
Proof.
  split; intro acc;
    [apply object_members_agree | apply array_items_agree];
    try lia; try apply scan_once_shrinks; reflexivity.
Qed.

(** ** Characters, order and membership *)

Lemma code_inj (a b : ascii) : code a = code b -> a = b.
Proof.
  unfold code; intro H.
  rewrite <- (ascii_nat_embedding a), <- (ascii_nat_embedding b).
  now rewrite H.
Qed.

Lemma chr_eqb_eq (a b : ascii) : chr_eqb a b = true <-> a = b.
Proof. apply Ascii.eqb_eq. Qed.

Lemma chr_eqb_refl (a : ascii) : chr_eqb a a = true.
Proof. now apply chr_eqb_eq. Qed.

Lemma text_compare_eq (a b : text) : text_compare a b = Eq <-> a = b.
Proof.
  revert b; induction a as [|x a IH]; intros [|y b]; simpl;
    try (split; [discriminate | discriminate]); try tauto.
  destruct (Nat.compare (code x) (code y)) eqn:E.
  - apply Nat.compare_eq_iff, code_inj in E; subst y.
    rewrite IH; split; [now intros -> | now intros [=]].
  - split; [discriminate|]. intros [= -> _].
    rewrite Nat.compare_refl in E; discriminate.
  - split; [discriminate|]. intros [= -> _].
    rewrite Nat.compare_refl in E; discriminate.
Qed.

Lemma text_compare_refl (a : text) : text_compare a a = Eq.
Proof. now apply text_compare_eq. Qed.

Lemma text_compare_antisym (a b : text) :
  text_compare b a = CompOpp (text_compare a b).
Proof.
  revert b; induction a as [|x a IH]; intros [|y b]; simpl; auto.
  rewrite (Nat.compare_antisym (code x) (code y)).
  destruct (Nat.compare (code x) (code y)); simpl; auto.
Qed.

Lemma text_lt_trans (a b c : text) : text_lt a b -> text_lt b c -> text_lt a c.
Proof.
  unfold text_lt; revert b c; induction a as [|x a IH]; intros [|y b] [|z c];
    simpl; try discriminate; auto.
  destruct (Nat.compare (code x) (code y)) eqn:Exy; try discriminate;
    destruct (Nat.compare (code y) (code z)) eqn:Eyz; try discriminate;
    intros H1 H2.
  - apply Nat.compare_eq_iff in Exy, Eyz.
    rewrite Exy, Eyz, Nat.compare_refl. eauto.
  - apply Nat.compare_eq_iff in Exy. now rewrite Exy, Eyz.
  - apply Nat.compare_eq_iff in Eyz. now rewrite <- Eyz, Exy.
  - apply Nat.compare_lt_iff in Exy, Eyz.
    assert (E : Nat.compare (code x) (code z) = Lt)
      by (apply Nat.compare_lt_iff; lia).
    now rewrite E.
Qed.

Lemma text_lt_irrefl (a : text) : ~ text_lt a a.
Proof. unfold text_lt; rewrite text_compare_refl; discriminate. Qed.

Lemma text_eqb_eq (a b : text) : text_eqb a b = true <-> a = b.
Proof.
  unfold text_eqb; rewrite <- text_compare_eq.
  destruct (text_compare a b); split; congruence.
Qed.

Lemma text_eqb_refl (a : text) : text_eqb a a = true.
Proof. now apply text_eqb_eq. Qed.

Lemma text_eqb_neq (a b : text) : text_eqb a b = false <-> a <> b.
Proof.
  rewrite <- text_eqb_eq. destruct (text_eqb a b); split; congruence.
Qed.

Lemma mem_In (x : text) (l : list text) : mem x l = true <-> In x l.
Proof.
  unfold mem; rewrite existsb_exists; split.
  - intros (y & Hy & E). apply text_eqb_eq in E. now subst.
  - intros H. exists x. split; [assumption | apply text_eqb_refl].
Qed.

Lemma mem_false (x : text) (l : list text) : mem x l = false <-> ~ In x l.
Proof.
  rewrite <- mem_In. destruct (mem x l); split; congruence.
Qed.

(** ** [sorted(set(names))] *)

Lemma insert_uniq_In (x y : text) (l : list text) :
  In y (insert_uniq x l) <-> y = x \/ In y l.
Proof.
  induction l as [|z l IH]; simpl.
  - intuition auto.
  - destruct (text_compare x z) eqn:E; simpl.
    + apply text_compare_eq in E; subst z. intuition auto.
    + intuition auto.
    + rewrite IH. intuition auto.
Qed.

Lemma insert_uniq_sorted (x : text) (l : list text) :
  Sorted text_lt l -> Sorted text_lt (insert_uniq x l).
Proof.
  induction l as [|z l IH]; simpl; intros Hs.
  - repeat constructor.
  - destruct (text_compare x z) eqn:E; auto.
    inversion Hs as [|? ? Hs' Hd]; subst.
    constructor; [now apply IH|].
    assert (Hzx : text_lt z x).
    { unfold text_lt. rewrite text_compare_antisym, E. reflexivity. }
    destruct l as [|w l]; simpl.
    + now constructor.
    + inversion Hd; subst.
      destruct (text_compare x w); constructor; auto.
Qed.

Lemma sorted_set_In (x : text) (names : list text) :
  In x (sorted_set names) <-> In x names.
Proof.
  induction names as [|y names IH]; simpl; [tauto|].
  rewrite insert_uniq_In, IH. intuition auto.
Qed.

Lemma sorted_set_sorted (names : list text) :
  StronglySorted text_lt (sorted_set names).
Proof.
  apply Sorted_StronglySorted.
  - intros a b c. apply text_lt_trans.
  - induction names as [|y names IH]; simpl.
    + constructor.
    + now apply insert_uniq_sorted.
Qed.

Lemma strongly_sorted_NoDup (l : list text) :
  StronglySorted text_lt l -> NoDup l.
Proof.
  induction 1 as [|x l Hs IH Hall]; constructor; auto.
  intro Hin. rewrite Forall_forall in Hall.
  exact (text_lt_irrefl x (Hall x Hin)).
Qed.

(** ** Substrings *)

Lemma prefix_by_eq (p s : text) :
  prefix_by chr_eqb p s = true <-> exists post, s = p ++ post.
Proof.
  revert s; induction p as [|a p IH]; intros s; simpl.
  - split; [intros _; now exists s | reflexivity].
  - destruct s as [|b s].
    + split; [discriminate | intros [post [=]]].
    + rewrite andb_true_iff, chr_eqb_eq, IH. split.
      * intros [-> [post ->]]. now exists post.
      * intros [post [= -> ->]]. split; [reflexivity | now exists post].
Qed.

Lemma str_in_occurs (k s : text) : str_in k s = true <-> occurs k s.
Proof.
  unfold str_in, occurs. induction s as [|c s IH]; simpl.
  - rewrite orb_false_r, prefix_by_eq. split.
    + intros [post E]. now exists [], post.
    + intros (pre & post & E). destruct pre as [|? ?]; [|discriminate].
      now exists post.
  - rewrite orb_true_iff, prefix_by_eq, IH. split.
    + intros [[post E] | (pre & post & E)].
      * now exists [], post.
      * exists (c :: pre), post. simpl. now rewrite E.
    + intros (pre & post & E). destruct pre as [|d pre]; simpl in E.
      * left. now exists post.
      * right. injection E as -> ->. now exists pre, post.
Qed.

Lemma str_in_chr (c : ascii) (s : text) : str_in [c] s = true <-> In c s.
Proof.
  rewrite str_in_occurs. unfold occurs. split.
  - intros (pre & post & ->). apply in_or_app. right. now left.
  - intros H. apply in_split in H as (pre & post & ->). now exists pre, post.
Qed.

Lemma lower_app (a b : text) : lower (a ++ b) = lower a ++ lower b.
Proof. apply map_app. Qed.

(* ================================================================== *)
(** ** C7: the request format follows the model family *)


(* ================================================================== *)
(** ** C6: preferred models come first *)

Lemma mem_filter_present (preferred models : list text) (m : text) :
  In m models ->
  mem m (filter (fun p => mem p models) preferred) = mem m preferred.
Proof.
  intro Hm. apply eq_true_iff_eq. rewrite !mem_In, filter_In, mem_In. tauto.
Qed.

Lemma candidates_eq (preferred models : list text) :
  candidates preferred models =
  filter (fun m => mem m models) preferred
  ++ filter (fun m => negb (mem m preferred)) models.
Proof.
  unfold candidates. f_equal. apply filter_ext_in.
  intros m Hm. now rewrite mem_filter_present.
Qed.

Lemma candidates_In (preferred models : list text) (m : text) :
  In m (candidates preferred models) <-> In m models.
Proof.
  rewrite candidates_eq, in_app_iff, !filter_In, negb_true_iff, mem_In, mem_false.
  destruct (in_dec (list_eq_dec ascii_dec) m preferred); tauto.
Qed.

(** C6.  The candidates shown are the catalog entries named in the
    preferred list, in the order of that list, followed by the remaining
    catalog entries in catalog order; they are the entries of the catalog;
    a blank line selects the first of them.  With preferred b, a and
    catalog a, b, c the candidates are b, a, c and a blank line gives b. *)
Theorem preferred_models_first :
  (forall preferred catalog,
      candidates preferred catalog =
      filter (fun m => mem m catalog) preferred
      ++ filter (fun m => negb (mem m preferred)) catalog) /\
  (forall preferred catalog m,
      In m (candidates preferred catalog) <-> In m catalog) /\
  (forall preferred catalog l rest first more,
      strip l = [] ->
      candidates preferred catalog = first :: more ->
      choose_model_preferred catalog preferred (Line l :: rest)
      = Returns first) /\
  candidates [txt "b"; txt "a"] [txt "a"; txt "b"; txt "c"]
  = [txt "b"; txt "a"; txt "c"] /\
  choose_model_preferred [txt "a"; txt "b"; txt "c"] [txt "b"; txt "a"]
    [Line []] = Returns (txt "b").
Proof.
  split; [exact candidates_eq|].
  split; [exact candidates_In|].
  split; [|split; reflexivity].
  intros preferred catalog l rest first more Hblank Hc.
  unfold choose_model_preferred.
  destruct catalog as [|c catalog].
  - assert (H : In first []) by (apply (candidates_In preferred); rewrite Hc; now left).
    destruct H.
  - cbn [select_loop]. rewrite Hblank, Hc. reflexivity.
Qed.

Lemma preferred_models_first_blank :
  choose_model_preferred [txt "llama3.1:8b"; txt "mistral:7b"; txt "qwen2.5:7b"]
    [txt "llama3.1:8b"; txt "qwen2.5:7b"] [Line (txt "  "); Line (txt "3")]
  = Returns (txt "llama3.1:8b").
Proof.
  apply (proj1 (proj2 (proj2 preferred_models_first))
           [txt "llama3.1:8b"; txt "qwen2.5:7b"]
           [txt "llama3.1:8b"; txt "mistral:7b"; txt "qwen2.5:7b"]
           (txt "  ") [Line (txt "3")] (txt "llama3.1:8b")
           [txt "qwen2.5:7b"; txt "mistral:7b"]);
    reflexivity.
Defined.

(* ================================================================== *)
(** ** C10: the choosers return members of the catalog *)

Lemma py_index_member (l : list text) (i : Z) : returns_member (py_index l i) l.
Proof.
  unfold py_index. destruct (nth_error l (Z.to_nat i)) eqn:E; simpl; auto.
  now apply nth_error_In in E.
Qed.

Lemma returns_member_incl (o : outcome text) (a b : list text) :
  (forall m, In m a -> In m b) -> returns_member o a -> returns_member o b.
Proof. destruct o; simpl; auto. Qed.

Lemma select_loop_member (cands : list text) (inputs : list key_event) :
  returns_member (select_loop cands inputs) cands.
Proof.
  induction inputs as [|[l|] rest IH]; cbn [select_loop]; try exact I.
  destruct (strip l) as [|c sel]; [apply py_index_member|].
  destruct (isdigit (c :: sel)); [|exact IH].
  destruct (py_int (c :: sel)) as [idx| |]; cbn [bind]; try exact I.
  destruct ((1 <=? idx)%Z && (idx <=? Z.of_nat (length cands))%Z);
    [apply py_index_member | exact IH].
Qed.

Lemma default_loop_member (models : list text) (d : text)
  (inputs : list key_event) :
  returns_member (default_loop models d inputs) models.
Proof.
  induction inputs as [|[l|] rest IH]; cbn [default_loop]; try exact I.
  destruct (text_eqb (lower (strip l)) (txt "q")); [exact I|].
  destruct (lower (strip l)) as [|c sel].
  - destruct (mem d models) eqn:Ed; [now apply mem_In in Ed|].
    apply py_index_member.
  - assert (Hname : returns_member
                      (if mem (c :: sel) models then Returns (c :: sel)
                       else default_loop models d rest) models).
    { destruct (mem (c :: sel) models) eqn:Em; [now apply mem_In in Em | exact IH]. }
    destruct (isdigit (c :: sel)); [|exact Hname].
    destruct (py_int (c :: sel)) as [idx| |]; cbn [bind]; try exact I.
    destruct ((1 <=? idx)%Z && (idx <=? Z.of_nat (length models))%Z);
      [apply py_index_member | exact Hname].
Qed.




(* ================================================================== *)
(** ** C9: the tokens kept from the listing command *)

Lemma cli_names_In (b : flavor) (lines : list text) (m : text) :
  In m (cli_names b lines) <->
  exists line rest,
    In line lines /\ split_ws (strip line) = m :: rest
    /\ looks_like_model b m = true.
Proof.
  induction lines as [|line lines IH]; cbn [cli_names].
  - split; [intros [] | intros (? & ? & [] & _)].
  - destruct (split_ws (strip line)) as [|tok0 toks] eqn:E.
    + rewrite IH. split.
      * intros (l & r & Hl & H). exists l, r. split; [now right | exact H].
      * intros (l & r & [<- | Hl] & Hs & H); [congruence|]. now exists l, r.
    + destruct (looks_like_model b tok0) eqn:L.
      * cbn [In]. rewrite IH. split.
        -- intros [<- | (l & r & Hl & H)].
           ++ exists line, toks. auto with datatypes.
           ++ exists l, r. split; [now right | exact H].
        -- intros (l & r & [<- | Hl] & Hs & H).
           ++ left. congruence.
           ++ right. now exists l, r.
      * rewrite IH. split.
        -- intros (l & r & Hl & H). exists l, r. split; [now right | exact H].
        -- intros (l & r & [<- | Hl] & Hs & H); [congruence|]. now exists l, r.
Qed.

Lemma looks_like_model_chars (b : flavor) (tok : text) :
  looks_like_model b tok = true <->
  match b with
  | Ollama => In colon tok
  | DMR => In slash tok \/ In colon tok
  end.
Proof.
  destruct b; cbn [looks_like_model].
  - apply str_in_chr.
  - now rewrite orb_true_iff, !str_in_chr.
Qed.

(** C9, as the code has it.  The listing is total; from the output of the
    command it keeps the first whitespace-delimited token of a line exactly
    when that token contains a colon (ollama clients) or a slash or a
    colon (Docker model runner client), and the kept tokens come back
    without duplicates in increasing lexicographic order. *)
Theorem cli_listing_keeps_model_tokens (b : flavor) (out : text) :
  exists l,
    _list_models_via_cli b (CliOutput out) = Returns l
    /\ StronglySorted text_lt l
    /\ forall m,
        In m l <->
        exists line rest,
          In line (splitlines out)
          /\ split_ws (strip line) = m :: rest
          /\ match b with
             | Ollama => In colon m
             | DMR => In slash m \/ In colon m
             end.
Proof.
  exists (sorted_set (cli_names b (splitlines out))).
  split; [reflexivity|]. split; [apply sorted_set_sorted|].
  intro m. rewrite sorted_set_In, cli_names_In.
  split; intros (line & rest & Hl & Hs & H); exists line, rest;
    (split; [exact Hl | split; [exact Hs | now apply looks_like_model_chars]]).
Qed.

(** C9 as stated fails on the ollama clients: a first token with a slash
    and no colon is dropped, while the Docker client keeps it. *)
Lemma ollama_listing_drops_slash_token :
  let out := txt "NAME ID SIZE" ++ newline ++ txt "ai/gpt-oss 11GB"
             ++ newline ++ txt "llama3:8b 4GB" in
  splitlines out = [txt "NAME ID SIZE"; txt "ai/gpt-oss 11GB"; txt "llama3:8b 4GB"]
  /\ split_ws (strip (txt "ai/gpt-oss 11GB")) = [txt "ai/gpt-oss"; txt "11GB"]
  /\ In slash (txt "ai/gpt-oss")
  /\ _list_models_via_cli Ollama (CliOutput out) = Returns [txt "llama3:8b"]
  /\ _list_models_via_cli DMR (CliOutput out)
     = Returns [txt "ai/gpt-oss"; txt "llama3:8b"].
Proof.
  repeat split. right; right; now left.
Qed.

(* ================================================================== *)
(** ** C8: discovery always returns a catalog *)

Lemma catchable_bind {A B : Type} (m : outcome A) (k : A -> outcome B) :
  catchable m -> (forall a, catchable (k a)) -> catchable (bind m k).
Proof. destruct m; simpl; auto; intros []. Qed.

Lemma bind_returns {A B : Type} (m : outcome A) (k : A -> outcome B) (b : B) :
  bind m k = Returns b -> exists a, m = Returns a /\ k a = Returns b.
Proof. destruct m; simpl; try discriminate. intro H. now exists a. Qed.

Lemma try_except_returns {A : Type} (body : outcome A) (handler : A) :
  catchable body -> exists a, try_except body handler = Returns a.
Proof.
  destruct body as [a|e|c]; simpl.
  - now exists a.
  - intros ->. now exists handler.
  - intros [].
Qed.

Lemma catchable_py_get (key : string) (d : json) : catchable (py_get key d).
Proof. destruct d; simpl; auto. Qed.

Lemma catchable_py_get_default (key : string) (dflt d : json) :
  catchable (py_get_default key dflt d).
Proof. destruct d; simpl; auto. Qed.

Lemma catchable_py_iter (v : json) : catchable (py_iter v).
Proof. destruct v; simpl; auto. Qed.

Lemma catchable_sorted_names (names : list json) : catchable (sorted_names names).
Proof. unfold sorted_names. destruct (all_strings names); simpl; auto. Qed.

Lemma catchable_collect (name_of : json -> outcome json) (items : list json) :
  (forall it, catchable (name_of it)) -> catchable (collect_names name_of items).
Proof.
  intro H. induction items as [|it items IH]; cbn [collect_names]; [exact I|].
  apply catchable_bind; [apply H|]. intro name.
  apply catchable_bind; [exact IH|]. intro names. exact I.
Qed.

Lemma catchable_raise_for_status (r : response) : catchable (raise_for_status r).
Proof.
  unfold raise_for_status.
  destruct ((400 <=? status_code r)%Z && (status_code r <? 600)%Z); simpl; auto.
Qed.

Lemma catchable_response_json (r : response) : catchable (response_json r).
Proof. unfold response_json. destruct (json_loads (body r)); simpl; auto. Qed.

Create HintDb catchable.

#[local] Hint Resolve catchable_bind catchable_py_get catchable_py_get_default
  catchable_py_iter catchable_sorted_names catchable_collect
  catchable_raise_for_status catchable_response_json
  : catchable.

Lemma catchable_list_api (b : flavor) (reply : transport) :
  catchable (match b with
             | Ollama => list_api_ollama_body reply
             | DMR => list_api_dmr_body reply
             end).
Proof.
  destruct b, reply as [e|r]; cbn [list_api_ollama_body list_api_dmr_body];
    try reflexivity.
  - auto 12 with catchable.
  - repeat (apply catchable_bind; [solve [auto with catchable] | intro]).
    apply catchable_bind; [|auto with catchable].
    apply catchable_collect. intro it.
    repeat (apply catchable_bind; [solve [auto with catchable] | intro]).
    exact I.
Qed.

Lemma sorted_names_returns (names : list json) (l : list text) :
  sorted_names names = Returns l ->
  exists strs, all_strings names = Some strs /\ l = sorted_set strs.
Proof.
  unfold sorted_names. destruct (all_strings names) as [strs|]; [|discriminate].
  intros [= <-]. now exists strs.
Qed.

Lemma list_api_sorted (b : flavor) (reply : transport) (l : list text) :
  _list_models_via_api b reply = Returns l -> StronglySorted text_lt l.
Proof.
  unfold _list_models_via_api, try_except.
  set (o := match b with
            | Ollama => list_api_ollama_body reply
            | DMR => list_api_dmr_body reply
            end).
  assert (H : forall x, o = Returns x -> StronglySorted text_lt x).
  { subst o. intros x Hx.
    destruct b, reply as [e|r]; cbn [list_api_ollama_body list_api_dmr_body] in Hx;
      try discriminate;
      repeat (apply bind_returns in Hx as (? & _ & Hx));
      apply sorted_names_returns in Hx as (strs & _ & ->);
      apply sorted_set_sorted. }
  destruct o as [x|e|c] eqn:E.
  - intros [= <-]. now apply H.
  - destruct (is_Exception e); [|discriminate]. intros [= <-]. constructor.
  - discriminate.
Qed.

Lemma collect_names_dicts (name_of : json -> outcome json)
      (nm : list (text * json) -> json) (entries : list (list (text * json))) :
  (forall e, name_of (JObj e) = Returns (nm e)) ->
  collect_names name_of (map JObj entries)
  = Returns (filter truthy (map nm entries)).
Proof.
  intro H. induction entries as [|e entries IH]; cbn [map collect_names filter].
  - reflexivity.
  - rewrite H, IH. reflexivity.
Qed.

Lemma all_strings_kept (nm : list (text * json) -> json)
      (entries : list (list (text * json))) :
  Forall (fun e => string_or_false (nm e)) entries ->
  exists strs,
    all_strings (filter truthy (map nm entries)) = Some strs
    /\ forall m, In m strs <->
                 m <> [] /\ exists e, In e entries /\ nm e = JStr m.
Proof.
  induction 1 as [|e entries He Hall (strs & Hs & Hin)]; cbn [map filter].
  - exists []. split; [reflexivity|]. intro m. split; [intros [] | intros (_ & ? & [] & _)].
  - destruct (nm e) as [| | | | | |s| |] eqn:En; cbn [string_or_false] in He;
      try (rewrite He; exists strs; split; [exact Hs|];
           intro m; rewrite Hin; split;
           [ intros (Hm & e' & He' & E); split; [exact Hm|];
             exists e'; split; [now right | exact E]
           | intros (Hm & e' & [<- | He'] & E); [congruence|];
             split; [exact Hm|]; now exists e' ]).
    destruct s as [|c s]; cbn [truthy].
    + exists strs. split; [exact Hs|]. intro m. rewrite Hin. split.
      * intros (Hm & e' & He' & E). split; [exact Hm|].
        exists e'. split; [now right | exact E].
      * intros (Hm & e' & [<- | He'] & E); [congruence|].
        split; [exact Hm|]. now exists e'.
    + exists ((c :: s) :: strs). cbn [all_strings string_of]. rewrite Hs.
      split; [reflexivity|]. intro m. cbn [In]. rewrite Hin. split.
      * intros [<- | (Hm & e' & He' & E)].
        -- split; [discriminate|]. exists e. split; [now left | exact En].
        -- split; [exact Hm|]. exists e'. split; [now right | exact E].
      * intros (Hm & e' & [<- | He'] & E).
        -- left. congruence.
        -- right. split; [exact Hm|]. now exists e'.
Qed.

Lemma list_api_well_formed (b : flavor) (r : response)
      (fields : list (text * json)) (entries : list (list (text * json))) :
  raise_for_status r = Returns tt ->
  json_loads (body r) = Some (JObj fields) ->
  entries_field b fields = JArr (map JObj entries) ->
  Forall (fun e => string_or_false (entry_name b e)) entries ->
  exists l,
    _list_models_via_api b (Responds r) = Returns l
    /\ forall m, In m l <->
                 m <> [] /\ exists e, In e entries /\ entry_name b e = JStr m.
Proof.
  intros Hst Hbody Hent Hall.
  destruct (all_strings_kept (entry_name b) entries Hall) as (strs & Hs & Hin).
  exists (sorted_set strs). split.
  - unfold _list_models_via_api.
    destruct b; cbn [list_api_ollama_body list_api_dmr_body];
      unfold response_json; rewrite Hst, Hbody; cbn [bind].
    + assert (E : py_get_default "models" (JArr []) (py_or (JObj fields) (JObj []))
                  = Returns (JArr (map JObj entries))).
      { rewrite <- Hent. destruct fields; reflexivity. }
      rewrite E. cbn [bind py_iter].
      rewrite (collect_names_dicts _ (entry_name Ollama)) by reflexivity.
      cbn [bind]. unfold sorted_names. rewrite Hs. reflexivity.
    + cbn [py_get bind].
      change (py_or match dict_get (txt "data") fields with
                    | Some v => v | None => JNull end
                    (py_or match dict_get (txt "models") fields with
                           | Some v => v | None => JNull end (JArr [])))
        with (entries_field DMR fields).
      rewrite Hent. cbn [py_iter bind].
      rewrite (collect_names_dicts _ (entry_name DMR)) by reflexivity.
      cbn [bind]. unfold sorted_names. rewrite Hs. reflexivity.
  - intro m. now rewrite sorted_set_In.
Qed.



Example list_api_example :
  _list_models_via_api DMR
    (Responds (Response 200
       (qtxt "{'data':[{'id':'ai/qwen3'},{'name':'ai/gpt-oss:20b'},{},{'id':'ai/qwen3'}]}")))
  = Returns [txt "ai/gpt-oss:20b"; txt "ai/qwen3"]
  /\ _list_models_via_api Ollama (Responds (Response 500 (txt "oops"))) = Returns []
  /\ _list_models_via_api Ollama (Responds (Response 200 (txt "<html>"))) = Returns []
  /\ _list_models_via_api Ollama (Responds (Response 200 (qtxt "{'models':[1]}")))
     = Returns []
  /\ _list_models_via_api Ollama (Fails TimedOut) = Returns [].
Proof. repeat split. Qed.

(* ================================================================== *)
(** ** Matching: general facts *)

Lemma in_firstn (n : nat) (s : text) (c : ascii) : In c (firstn n s) -> In c s.
Proof.
  intro H. rewrite <- (firstn_skipn n s). apply in_or_app. now left.
Qed.

Lemma in_skipn (n : nat) (s : text) (c : ascii) : In c (skipn n s) -> In c s.
Proof.
  intro H. rewrite <- (firstn_skipn n s). apply in_or_app. now right.
Qed.

Lemma star_rests_suffix (p : ascii -> bool) (s rest : text) :
  In rest (star_rests p s) -> exists pre, s = pre ++ rest.
Proof.
  revert rest; induction s as [|c s IH]; intros rest; cbn [star_rests].
  - intros [<- | []]. now exists [].
  - destruct (p c).
    + rewrite in_app_iff. intros [H | [<- | []]].
      * destruct (IH _ H) as [pre ->]. now exists (c :: pre).
      * now exists [].
    + intros [<- | []]. now exists [].
Qed.

Lemma lazy_rests_suffix (p : ascii -> bool) (s rest : text) :
  In rest (lazy_rests p s) -> exists pre, s = pre ++ rest.
Proof.
  revert rest; induction s as [|c s IH]; intros rest; cbn [lazy_rests].
  - intros [<- | []]. now exists [].
  - intros [<- | H]; [now exists []|].
    destruct (p c); [|destruct H].
    destruct (IH _ H) as [pre ->]. now exists (c :: pre).
Qed.

(** A match consumes a prefix: what is left is a suffix of the input. *)
Lemma run_suffix (r : regex) :
  forall s m, In m (run r s) -> exists pre, s = pre ++ snd m.
Proof.
  induction r as [|p|a IHa b IHb|a IHa b IHb|p|p|a IHa|a IHa];
    intros s m; cbn [run].
  - intros [<- | []]. now exists [].
  - destruct s as [|c t]; [intros []|].
    destruct (p c); [|intros []]. intros [<- | []]. now exists [c].
  - rewrite in_flat_map. intros (m1 & H1 & H2).
    apply in_map_iff in H2 as (m2 & <- & H2).
    destruct (IHa _ _ H1) as [p1 E1], (IHb _ _ H2) as [p2 E2].
    exists (p1 ++ p2). cbn [snd]. now rewrite <- app_assoc, <- E2.
  - rewrite in_app_iff. intros [H | H]; eauto.
  - rewrite in_map_iff. intros (rest & <- & H). now apply star_rests_suffix in H.
  - rewrite in_map_iff. intros (rest & <- & H). now apply lazy_rests_suffix in H.
  - rewrite in_map_iff. intros (m1 & <- & H). cbn [snd]. eauto.
  - destruct (run a s); [intros [] | intros [<- | []]]. now exists [].
Qed.

(** The captured text is made of characters of the input. *)
Lemma run_group_chars (r : regex) :
  forall s m g c, In m (run r s) -> fst m = Some g -> In c g -> In c s.
Proof.
  induction r as [|p|a IHa b IHb|a IHa b IHb|p|p|a IHa|a IHa];
    intros s m g c; cbn [run].
  - intros [<- | []]; discriminate.
  - destruct s as [|d t]; [intros []|].
    destruct (p d); [|intros []]. intros [<- | []]; discriminate.
  - rewrite in_flat_map. intros (m1 & H1 & H2).
    apply in_map_iff in H2 as (m2 & <- & H2). cbn [fst].
    destruct (fst m2) as [g2|] eqn:E2; cbn [later_group].
    + intros [= <-] Hc.
      destruct (run_suffix _ _ _ H1) as [p1 ->].
      apply in_or_app. right. eapply IHb; eauto.
    + intros Hg Hc. eapply IHa; eauto.
  - rewrite in_app_iff. intros [H | H]; eauto.
  - rewrite in_map_iff. intros (rest & <- & _). discriminate.
  - rewrite in_map_iff. intros (rest & <- & _). discriminate.
  - rewrite in_map_iff. intros (m1 & <- & H). cbn [fst]. intros [= <-] Hc.
    now apply in_firstn in Hc.
  - destruct (run a s); [intros [] | intros [<- | []]]; discriminate.
Qed.

(** With the empty replacement, [re.sub] only deletes. *)
Lemma re_sub_from_chars (r : regex) (s : text) :
  forall skip c, In c (re_sub_from r [] skip s) -> In c s.
Proof.
  induction s as [|d t IH]; intros skip c; cbn [re_sub_from].
  - destruct skip, (run r []); intros [].
  - destruct skip as [|k].
    + destruct (run r (d :: t)) as [|m ms].
      * intros [<- | H]; [now left | right; eauto].
      * destruct (length (d :: t) - length (snd m)); cbn [app].
        -- intros [<- | H]; [now left | right; eauto].
        -- intro H. right; eauto.
    + intro H. right; eauto.
Qed.

(** The captures [re.findall] returns are made of characters of the
    input. *)
Lemma re_findall_from_chars (r : regex) (s : text) :
  forall skip m c, In m (re_findall_from r skip s) -> In c m -> In c s.
Proof.
  induction s as [|d t IH]; intros skip m c; cbn [re_findall_from].
  - destruct skip; [|intros []].
    destruct (run r []) as [|m0 ms] eqn:E; [intros []|].
    intros [<- | []] Hc. destruct (fst m0) as [g|] eqn:Eg; [|destruct Hc].
    eapply run_group_chars; eauto. rewrite E. now left.
  - destruct skip as [|k].
    + destruct (run r (d :: t)) as [|m0 ms] eqn:E.
      * intros H Hc. right; eauto.
      * intros [<- | H] Hc.
        -- destruct (fst m0) as [g|] eqn:Eg; [|destruct Hc].
           eapply run_group_chars; eauto. rewrite E. now left.
        -- right; eauto.
    + intros H Hc. right; eauto.
Qed.

Lemma never_matches_tail (r : regex) (c : ascii) (s : text) :
  never_matches r (c :: s) -> never_matches r s.
Proof. intros H pre t ->. apply (H (c :: pre)). reflexivity. Qed.

Lemma re_sub_no_match (r : regex) (repl s : text) :
  never_matches r s -> re_sub r repl s = s.
Proof.
  unfold re_sub. induction s as [|c s IH]; intro H; cbn [re_sub_from].
  - now rewrite (H [] []).
  - rewrite (H [] (c :: s)) by reflexivity.
    f_equal. apply IH. now apply never_matches_tail in H.
Qed.

Lemma re_findall_no_match (r : regex) (s : text) :
  never_matches r s -> re_findall r s = [].
Proof.
  unfold re_findall. induction s as [|c s IH]; intro H; cbn [re_findall_from].
  - now rewrite (H [] []).
  - rewrite (H [] (c :: s)) by reflexivity.
    apply IH. now apply never_matches_tail in H.
Qed.

(* ================================================================== *)
(** ** C2 and C1: what the extractor and the client hand back *)

Lemma parses_false (s : text) : parses s = false <-> json_loads s = None.
Proof. unfold parses. destruct (json_loads s); split; congruence. Qed.

Lemma first_parsing_find (cands : list text) :
  fst (first_parsing cands) = find parses cands.
Proof.
  induction cands as [|c cands IH]; cbn [first_parsing find]; [reflexivity|].
  destruct (parses c); [reflexivity|].
  destruct (first_parsing cands) as [found tried]. exact IH.
Qed.

(** The logged function returns what [extract_json_from_response]
    returns. *)
Lemma extract_logged_fst (content : text) :
  extract_json_from_response content = fst (extract_json_logged content).
Proof.
  unfold extract_json_from_response, extract_json_logged.
  destruct (parses (clean content)); [reflexivity|].
  rewrite <- first_parsing_find.
  destruct (first_parsing (pattern_matches (clean content))) as [[m|] tried];
    [reflexivity|]. cbn [fst].
  destruct (outer_braces (clean content)); reflexivity.
Qed.

Lemma first_parsing_found (cands : list text) (m : text) :
  fst (first_parsing cands) = Some m -> parses m = true /\ In m cands.
Proof.
  induction cands as [|c cands IH]; cbn [first_parsing]; [discriminate|].
  destruct (parses c) eqn:E.
  - intros [= <-]. split; [exact E | now left].
  - destruct (first_parsing cands) as [found tried]. cbn [fst] in *.
    intro H. destruct (IH H). split; [assumption | now right].
Qed.

Lemma first_parsing_none (cands : list text) :
  fst (first_parsing cands) = None <->
  forallb (fun m => negb (parses m)) cands = true.
Proof.
  induction cands as [|c cands IH]; cbn [first_parsing forallb]; [tauto|].
  destruct (parses c); cbn [negb andb].
  - split; discriminate.
  - destruct (first_parsing cands) as [found tried]. exact IH.
Qed.

Lemma extract_exhausted (content : text) :
  exhausted content = true ->
  extract_json_from_response content = clean content.
Proof.
  rewrite extract_logged_fst. unfold exhausted, extract_json_logged.
  rewrite !andb_true_iff, negb_true_iff. intros [[Hc Hm] Ho]. rewrite Hc.
  apply first_parsing_none in Hm.
  destruct (first_parsing (pattern_matches (clean content))) as [found tried].
  cbn [fst] in Hm. subst found.
  destruct (outer_braces (clean content)) as [cand|]; [|reflexivity].
  apply negb_true_iff in Ho. now rewrite Ho.
Qed.

Lemma extract_not_exhausted (content : text) :
  exhausted content = false ->
  parses (extract_json_from_response content) = true.
Proof.
  rewrite extract_logged_fst. unfold exhausted, extract_json_logged.
  destruct (parses (clean content)) eqn:Hc; [intros _; exact Hc|].
  cbn [negb andb].
  destruct (first_parsing (pattern_matches (clean content))) as [found tried] eqn:Ef.
  destruct found as [m|].
  - intros _. cbn [fst].
    apply (first_parsing_found (pattern_matches (clean content))).
    now rewrite Ef.
  - assert (Hn : forallb (fun m => negb (parses m))
                         (pattern_matches (clean content)) = true).
    { apply first_parsing_none. now rewrite Ef. }
    rewrite Hn. cbn [andb].
    destruct (outer_braces (clean content)) as [cand|]; [|discriminate].
    destruct (parses cand) eqn:Hp; [intros _; exact Hp | discriminate].
Qed.

Lemma decode_exhausted (content : text) :
  exhausted content = true ->
  parses (clean content) = false
  /\ decode_content content
     = Raises (RuntimeError (non_json_message (clean content))).
Proof.
  intro E. pose proof (extract_exhausted _ E) as Hx.
  unfold exhausted in E. rewrite !andb_true_iff, negb_true_iff in E.
  destruct E as [[Hc _] Ho]. split; [exact Hc|].
  unfold decode_content. rewrite Hx.
  apply parses_false in Hc. rewrite Hc.
  destruct (outer_braces (clean content)) as [cand|]; [|reflexivity].
  apply negb_true_iff, parses_false in Ho. now rewrite Ho.
Qed.



(** The last resort of [call_ollama] repeats step 5 of the extractor and
    never succeeds where the extractor's result does not parse. *)
Lemma decode_content_eq (content : text) :
  decode_content content =
  match json_loads (extract_json_from_response content) with
  | Some v => Returns v
  | None =>
      Raises (RuntimeError (non_json_message (extract_json_from_response content)))
  end.
Proof.
  destruct (json_loads (extract_json_from_response content)) as [v|] eqn:E.
  - unfold decode_content. now rewrite E.
  - destruct (exhausted content) eqn:Ex.
    + destruct (decode_exhausted _ Ex) as [_ Hd].
      now rewrite Hd, (extract_exhausted _ Ex).
    + apply extract_not_exhausted in Ex. apply parses_false in E. congruence.
Qed.




(** The end-to-end properties of the specification on the client of
    tests/test_model.py: the sample object comes back as decoded, a status
    500 and an object spoilt by a trailing comma end in [RuntimeError]. *)
Example end_to_end_examples :
  (exists v,
      call_ollama (stub_backend (txt "{}")) (txt "llama3") (txt "post")
      = Returns v)
  /\ call_ollama (fun _ => Responds (Response 500 (txt "boom")))
                 (txt "llama3") (txt "post")
     = Raises (RuntimeError (txt "Ollama HTTP 500: boom"))
  /\ call_ollama
       (stub_backend (qtxt "I think the answer is {\'industry\':\'Tech\',}"))
       (txt "llama3") (txt "post")
     = Raises (RuntimeError
                 (txt "Model returned non-JSON content. Attempted to parse: "
                  ++ qtxt "{'industry':'Tech',}" ++ txt "..."))
  /\ call_ollama (fun _ => Fails TimedOut) (txt "llama3") (txt "post")
     = Raises (RequestException TimedOut).
Proof.
  split; [eexists; reflexivity|]. repeat split.
Qed.

Example valid_result_example :
  exists v,
    json_loads
      (qtxt "{'industry':'Tech','company':'X','symbol':'X','direction':'buy','confidence':0.8,'reason':'r','scores':{'impact_size':0.8,'time_proximity':0.9,'clarity':0.7,'volatility_sensitivity':0.6,'duration':0.5}}")
    = Some v
    /\ valid_analysis_result v = true.
Proof. eexists. split; reflexivity. Qed.

(* ================================================================== *)
(** ** The patterns of the extractor *)

Lemma run_lit (eq : ascii -> ascii -> bool) (p : text) :
  forall s, run (lit_by eq p) s =
            if prefix_by eq p s then [(None, skipn (length p) s)] else [].
Proof.
  induction p as [|a p IH]; intro s; cbn [lit_by run prefix_by length].
  - reflexivity.
  - destruct s as [|b s]; [reflexivity|]. cbn [skipn].
    destruct (eq a b); cbn [andb flat_map snd]; [|reflexivity].
    rewrite IH. destruct (prefix_by eq p s); reflexivity.
Qed.

Lemma contains_by_false (eq : ascii -> ascii -> bool) (p : text) :
  forall s, contains_by eq p s = false ->
            forall pre t, s = pre ++ t -> prefix_by eq p t = false.
Proof.
  intros s H pre. revert s H.
  induction pre as [|c pre IH]; intros s H t ->.
  - destruct t; cbn [app contains_by] in H; now apply orb_false_elim in H.
  - cbn [app contains_by] in H. apply orb_false_elim in H as [_ H]. eauto.
Qed.

(** A literal cannot run over a character none of its characters
    matches. *)
Lemma prefix_by_stops (eq : ascii -> ascii -> bool) (b : ascii) (rest : text) :
  forall p pre,
    forallb (fun a => negb (eq a b)) p = true ->
    prefix_by eq p (pre ++ b :: rest) = true ->
    length p <= length pre.
Proof.
  induction p as [|a p IH]; intros pre Hp H; cbn [length]; [lia|].
  cbn [forallb] in Hp. apply andb_true_iff in Hp as [Ha Hp].
  destruct pre as [|c pre]; cbn [app prefix_by] in H.
  - apply andb_true_iff in H as [H _]. rewrite H in Ha. discriminate.
  - apply andb_true_iff in H as [_ H]. cbn [length].
    specialize (IH pre Hp H). lia.
Qed.

(** The ways [pat_thinking] matches at the start of [s]. *)
Lemma run_pat_thinking (s : text) :
  run pat_thinking s =
  map (fun m => (Some (firstn (length s - length (snd m)) s), snd m))
      ((if prefix_by ci_eqb marker_thinking s
        then [(@None text, skipn (length marker_thinking) s)] else [])
       ++ (if prefix_by ci_eqb marker_done s
           then [(@None text, skipn (length marker_done) s)] else [])).
Proof.
  unfold pat_thinking. cbn [run]. now rewrite !run_lit.
Qed.

Lemma never_matches_thinking (s : text) :
  icontains marker_thinking s = false ->
  icontains marker_done s = false ->
  never_matches pat_thinking s.
Proof.
  intros H1 H2 pre t E. rewrite run_pat_thinking.
  rewrite (contains_by_false _ _ _ H1 pre t E),
          (contains_by_false _ _ _ H2 pre t E).
  reflexivity.
Qed.

(** The ways [pat_respond] matches at the start of [s]: after the
    literal, the shortest stretch that ends before an opening brace is
    tried first. *)
Lemma run_pat_respond (s : text) :
  run pat_respond s =
  if prefix_by ci_eqb marker_respond s then
    map (fun rest => (Some (firstn (length s - length rest) s), rest))
        (filter starts_with_lbrace
                (lazy_rests any_chr (skipn (length marker_respond) s)))
  else [].
Proof.
  unfold pat_respond. cbn [run]. rewrite run_lit.
  destruct (prefix_by ci_eqb marker_respond s); [|reflexivity].
  cbn [flat_map snd fst map app]. rewrite app_nil_r.
  induction (lazy_rests any_chr (skipn (length marker_respond) s)) as [|rest l IH];
    [reflexivity|].
  cbn [map flat_map filter snd fst]. rewrite IH.
  destruct rest as [|c rest]; cbn [starts_with_lbrace]; [reflexivity|].
  destruct (chr_eqb lbrace c); reflexivity.
Qed.

Lemma never_matches_respond (s : text) :
  icontains marker_respond s = false -> never_matches pat_respond s.
Proof.
  intros H pre t E. rewrite run_pat_respond.
  now rewrite (contains_by_false _ _ _ H pre t E).
Qed.

Lemma lazy_rests_any_suffix (s rest : text) :
  In rest (lazy_rests any_chr s) -> exists pre, s = pre ++ rest.
Proof. apply lazy_rests_suffix. Qed.

Lemma starts_with_lbrace_In (s : text) :
  starts_with_lbrace s = true -> In lbrace s.
Proof.
  destruct s as [|c s]; [discriminate|]. cbn [starts_with_lbrace].
  intro H. apply chr_eqb_eq in H. subst. now left.
Qed.

Lemma filter_none {A : Type} (f : A -> bool) (l : list A) :
  (forall x, In x l -> f x = false) -> filter f l = [].
Proof.
  induction l as [|x l IH]; cbn [filter]; intro H; [reflexivity|].
  rewrite (H x) by now left. apply IH. intros y Hy. apply H. now right.
Qed.

Lemma never_matches_respond_no_brace (s : text) :
  ~ In lbrace s -> never_matches pat_respond s.
Proof.
  intros Hs pre t E. rewrite run_pat_respond.
  destruct (prefix_by ci_eqb marker_respond t); [|reflexivity].
  replace (filter starts_with_lbrace
             (lazy_rests any_chr (skipn (length marker_respond) t)))
    with (@nil text); [reflexivity|].
  symmetry. apply filter_none. intros rest Hr.
  destruct (starts_with_lbrace rest) eqn:Hb; [|reflexivity].
  exfalso. apply Hs. subst s.
  apply lazy_rests_any_suffix in Hr as [p Hp].
  apply in_or_app. right. apply (in_skipn (length marker_respond)).
  rewrite Hp. apply in_or_app. right. now apply starts_with_lbrace_In.
Qed.

(** ** Braces *)

Lemma find_chr_absent (c : ascii) (s : text) :
  ~ In c s -> find_chr c s = (-1)%Z.
Proof.
  induction s as [|d s IH]; cbn [find_chr In]; [reflexivity|].
  intro H. destruct (chr_eqb c d) eqn:E.
  - apply chr_eqb_eq in E. subst. tauto.
  - rewrite IH by tauto. reflexivity.
Qed.

Lemma find_chr_first (c : ascii) (pre rest : text) :
  ~ In c pre -> find_chr c (pre ++ c :: rest) = Z.of_nat (length pre).
Proof.
  induction pre as [|d pre IH]; cbn [app find_chr In length]; intro H.
  - now rewrite chr_eqb_refl.
  - destruct (chr_eqb c d) eqn:E.
    + apply chr_eqb_eq in E. subst. tauto.
    + rewrite IH by tauto. destruct (length pre); cbn; [reflexivity|].
      f_equal. lia.
Qed.

(* ================================================================== *)
(** ** C3: the direct parse returns clean JSON unchanged *)

Lemma strip_preamble_unmarked (s : text) :
  icontains marker_thinking s = false ->
  icontains marker_done s = false ->
  icontains marker_respond s = false ->
  strip_preamble s = s.
Proof.
  intros H1 H2 H3. unfold strip_preamble.
  rewrite (re_sub_no_match pat_thinking) by now apply never_matches_thinking.
  now apply re_sub_no_match, never_matches_respond.
Qed.

(** C3, as the code has it.  A text that parses as JSON, starts with its
    opening brace, and holds no occurrence, in any letter case, of
    "thinking...", "done thinking." or "we need to respond" is returned
    unchanged, after a single call to the parser. *)
Theorem direct_parse_returns_unchanged (rest : text) :
  let content := lbrace :: rest in
  parses content = true ->
  icontains marker_thinking content = false ->
  icontains marker_done content = false ->
  icontains marker_respond content = false ->
  extract_json_from_response content = content
  /\ parse_attempts content = [content].
Proof.
  intros content Hp H1 H2 H3.
  assert (Hc : clean content = content).
  { unfold clean. rewrite (strip_preamble_unmarked _ H1 H2 H3).
    unfold content. cbn [find_chr]. now rewrite chr_eqb_refl. }
  rewrite extract_logged_fst. unfold parse_attempts, extract_json_logged.
  rewrite Hc, Hp. split; reflexivity.
Qed.

Lemma direct_parse_returns_unchanged_sample :
  extract_json_from_response (sample_result (txt "r")) = sample_result (txt "r")
  /\ parse_attempts (sample_result (txt "r")) = [sample_result (txt "r")].
Proof.
  apply (direct_parse_returns_unchanged (tl (sample_result (txt "r"))));
    vm_compute; reflexivity.
Defined.

(** C3 as stated fails: a schema-valid object whose reason is the text
    thinking... comes back with an empty reason, and one preceded by a
    space comes back without the space. *)
Lemma extract_alters_valid_json :
  (exists v, json_loads (sample_result (txt "thinking...")) = Some v
             /\ valid_analysis_result v = true)
  /\ extract_json_from_response (sample_result (txt "thinking..."))
     = sample_result []
  /\ sample_result [] <> sample_result (txt "thinking...")
  /\ (exists v, json_loads (txt " " ++ sample_result (txt "r")) = Some v
                /\ valid_analysis_result v = true)
  /\ extract_json_from_response (txt " " ++ sample_result (txt "r"))
     = sample_result (txt "r")
  /\ sample_result (txt "r") <> txt " " ++ sample_result (txt "r").
Proof.
  split; [eexists; split; vm_compute; reflexivity|].
  split; [vm_compute; reflexivity|].
  split; [vm_compute; discriminate|].
  split; [eexists; split; vm_compute; reflexivity|].
  split; [vm_compute; reflexivity | vm_compute; discriminate].
Qed.

(* ================================================================== *)
(** ** C4: text without an opening brace *)

Lemma never_matches_braces (s : text) :
  ~ In lbrace s ->
  never_matches pat_braces_greedy s /\ never_matches pat_braces_lazy s.
Proof.
  intro Hs.
  assert (H : forall pre t, s = pre ++ t -> starts_with_lbrace t = false).
  { intros pre t ->. destruct (starts_with_lbrace t) eqn:E; [|reflexivity].
    exfalso. apply Hs, in_or_app. right. now apply starts_with_lbrace_In. }
  split; intros pre t E; specialize (H pre t E);
    destruct t as [|c t]; try reflexivity;
    cbn [starts_with_lbrace] in H;
    unfold pat_braces_greedy, pat_braces_lazy; cbn [run]; now rewrite H.
Qed.

Lemma parse_attempts_head (content : text) :
  hd_error (parse_attempts content) = Some (clean content).
Proof.
  unfold parse_attempts, extract_json_logged.
  destruct (parses (clean content)); [reflexivity|].
  destruct (first_parsing (pattern_matches (clean content))) as [[m|] tried];
    [reflexivity|].
  destruct (outer_braces (clean content)); reflexivity.
Qed.




(* ================================================================== *)
(** ** C5: a preamble before the object *)

Section DeletionBeforeObject.
(** A pattern that matches nowhere inside [obj], and whose matches in
    brace-free text before [obj] end before [obj] begins. *)
Variables (r : regex) (obj : text).
Hypothesis inside : never_matches r obj.
Hypothesis before :
  forall pre m ms,
    ~ In lbrace pre ->
    run r (pre ++ obj) = m :: ms ->
    length (pre ++ obj) - length (snd m) <= length pre.

Lemma re_sub_keeps_object (pre : text) :
  forall skip,
    ~ In lbrace pre -> skip <= length pre ->
    exists pre',
      re_sub_from r [] skip (pre ++ obj) = pre' ++ obj /\ ~ In lbrace pre'.
Proof.
  induction pre as [|c pre IH]; intros skip Hpre Hskip.
  - cbn [length] in Hskip. assert (skip = 0) by lia. subst skip.
    exists []. split; [|intros []].
    exact (re_sub_no_match r [] obj inside).
  - assert (Hpre' : ~ In lbrace pre) by (intro; apply Hpre; now right).
    assert (Hc : c <> lbrace) by (intro; apply Hpre; now left).
    assert (Hkeep : exists pre',
               c :: re_sub_from r [] 0 (pre ++ obj) = pre' ++ obj
               /\ ~ In lbrace pre').
    { destruct (IH 0 Hpre' (Nat.le_0_l _)) as (p & -> & Hp).
      exists (c :: p). split; [reflexivity|].
      intros [E | E]; [now apply Hc | now apply Hp]. }
    cbn [app re_sub_from length] in *.
    destruct skip as [|k]; [|apply IH; [assumption | lia]].
    destruct (run r (c :: pre ++ obj)) as [|m ms] eqn:E; [exact Hkeep|].
    pose proof (before (c :: pre) m ms Hpre E) as Hlen.
    cbn [app length] in Hlen.
    destruct (S (length (pre ++ obj)) - length (snd m)) as [|k];
      [exact Hkeep|].
    cbn [app]. apply IH; [assumption | lia].
Qed.
End DeletionBeforeObject.

Lemma marker_has_no_brace (p : text) :
  forallb (fun a => negb (ci_eqb a lbrace)) p = true ->
  forall pre rest,
    prefix_by ci_eqb p (pre ++ lbrace :: rest) = true ->
    length (pre ++ lbrace :: rest)
    - length (skipn (length p) (pre ++ lbrace :: rest)) <= length pre.
Proof.
  intros Hp pre rest H.
  pose proof (prefix_by_stops ci_eqb lbrace rest p pre Hp H) as Hlen.
  rewrite length_skipn. lia.
Qed.

Lemma thinking_ends_before_object (rest pre : text) (m : option text * text)
      (ms : list (option text * text)) :
  ~ In lbrace pre ->
  run pat_thinking (pre ++ lbrace :: rest) = m :: ms ->
  length (pre ++ lbrace :: rest) - length (snd m) <= length pre.
Proof.
  intros _. rewrite run_pat_thinking.
  destruct (prefix_by ci_eqb marker_thinking (pre ++ lbrace :: rest)) eqn:E1.
  - cbn [app map snd]. intros [= <- _].
    exact (marker_has_no_brace marker_thinking eq_refl pre rest E1).
  - destruct (prefix_by ci_eqb marker_done (pre ++ lbrace :: rest)) eqn:E2;
      [|discriminate].
    cbn [app map snd]. intros [= <- _].
    exact (marker_has_no_brace marker_done eq_refl pre rest E2).
Qed.

(** Before an object, the first stretch ending at an opening brace ends
    at the object. *)
Lemma first_brace_is_object (rest : text) (pre : text) :
  ~ In lbrace pre ->
  exists l,
    filter starts_with_lbrace (lazy_rests any_chr (pre ++ lbrace :: rest))
    = (lbrace :: rest) :: l.
Proof.
  induction pre as [|c pre IH]; intro Hpre.
  - cbn [app lazy_rests filter starts_with_lbrace]. rewrite chr_eqb_refl.
    eexists. reflexivity.
  - cbn [app lazy_rests filter starts_with_lbrace any_chr].
    assert (E : chr_eqb lbrace c = false).
    { destruct (chr_eqb lbrace c) eqn:E; [|reflexivity].
      apply chr_eqb_eq in E. exfalso. apply Hpre. now left. }
    rewrite E. apply IH. intro H. apply Hpre. now right.
Qed.

Lemma respond_ends_before_object (rest pre : text) (m : option text * text)
      (ms : list (option text * text)) :
  ~ In lbrace pre ->
  run pat_respond (pre ++ lbrace :: rest) = m :: ms ->
  length (pre ++ lbrace :: rest) - length (snd m) <= length pre.
Proof.
  intros Hpre. rewrite run_pat_respond.
  destruct (prefix_by ci_eqb marker_respond (pre ++ lbrace :: rest)) eqn:E;
    [|discriminate].
  pose proof (prefix_by_stops ci_eqb lbrace rest marker_respond pre
                              eq_refl E) as Hlen.
  rewrite skipn_app.
  replace (length marker_respond - length pre) with 0 by lia.
  cbn [skipn].
  destruct (first_brace_is_object rest (skipn (length marker_respond) pre))
    as [l ->].
  { intro H. apply Hpre. now apply in_skipn in H. }
  cbn [map]. intros [= <- _]. cbn [snd]. rewrite length_app. lia.
Qed.

Lemma strip_preamble_keeps_object (pre rest : text) :
  let obj := lbrace :: rest in
  ~ In lbrace pre ->
  icontains marker_thinking obj = false ->
  icontains marker_done obj = false ->
  icontains marker_respond obj = false ->
  exists pre', strip_preamble (pre ++ obj) = pre' ++ obj /\ ~ In lbrace pre'.
Proof.
  intros obj Hpre H1 H2 H3. unfold strip_preamble, re_sub.
  destruct (re_sub_keeps_object pat_thinking obj
              (never_matches_thinking _ H1 H2)
              (thinking_ends_before_object rest)
              pre 0 Hpre (Nat.le_0_l _)) as (p1 & -> & Hp1).
  exact (re_sub_keeps_object pat_respond obj
           (never_matches_respond _ H3)
           (respond_ends_before_object rest)
           p1 0 Hp1 (Nat.le_0_l _)).
Qed.

Lemma extract_after_noise (pre rest : text) :
  let obj := lbrace :: rest in
  ~ In lbrace pre ->
  parses obj = true ->
  icontains marker_thinking obj = false ->
  icontains marker_done obj = false ->
  icontains marker_respond obj = false ->
  clean (pre ++ obj) = obj /\ extract_json_from_response (pre ++ obj) = obj.
Proof.
  intros obj Hpre Hp H1 H2 H3.
  destruct (strip_preamble_keeps_object pre rest Hpre H1 H2 H3)
    as (p & Hs & Hnb).
  subst obj.
  assert (Hc : clean (pre ++ lbrace :: rest) = lbrace :: rest).
  { unfold clean. rewrite Hs, (find_chr_first lbrace p rest Hnb).
    destruct p as [|c p]; [reflexivity|].
    replace (0 <? Z.of_nat (length (c :: p)))%Z with true
      by (symmetry; apply Z.ltb_lt; cbn [length]; lia).
    unfold slice_from. rewrite Nat2Z.id.
    rewrite skipn_app, skipn_all, Nat.sub_diag. reflexivity. }
  split; [exact Hc|].
  rewrite extract_logged_fst. unfold extract_json_logged.
  now rewrite Hc, Hp.
Qed.

(** C5, as the code has it.  For a text made of "thinking...", then noise
    without an opening brace, then a JSON object that parses and holds none
    of the three markers in any letter case, the cleaned text and the
    result are exactly the object. *)
Theorem preamble_and_noise_stripped (noise rest : text) :
  let obj := lbrace :: rest in
  ~ In lbrace noise ->
  parses obj = true ->
  icontains marker_thinking obj = false ->
  icontains marker_done obj = false ->
  icontains marker_respond obj = false ->
  clean (txt "thinking..." ++ noise ++ obj) = obj
  /\ extract_json_from_response (txt "thinking..." ++ noise ++ obj) = obj.
Proof.
  intros obj Hn Hp H1 H2 H3. rewrite app_assoc.
  apply extract_after_noise; try assumption.
  intro H. apply in_app_or in H as [H | H]; [|now apply Hn].
  vm_compute in H. intuition discriminate.
Qed.

Lemma preamble_and_noise_stripped_valid :
  extract_json_from_response
    (txt "thinking..." ++ txt " We need to respond with JSON only. "
     ++ qtxt "{'valid':'json'}")
  = qtxt "{'valid':'json'}".
Proof.
  apply (preamble_and_noise_stripped
           (txt " We need to respond with JSON only. ")
           (tl (qtxt "{'valid':'json'}"))).
  - vm_compute. intuition discriminate.
  - reflexivity.
  - reflexivity.
  - reflexivity.
  - reflexivity.
Defined.

(** C5 as stated fails: noise that holds an opening brace stays glued to
    the object and the result does not parse; and a marker inside the
    object is deleted from it. *)
Lemma noise_with_brace_defeats_extraction :
  parses (qtxt "{'valid':'json'}") = true
  /\ extract_json_from_response
       (txt "thinking..." ++ txt "{" ++ qtxt "{'valid':'json'}")
     = qtxt "{{'valid':'json'}"
  /\ parses (qtxt "{{'valid':'json'}") = false
  /\ qtxt "{{'valid':'json'}" <> qtxt "{'valid':'json'}"
  /\ parses (qtxt "{'valid':'Thinking...'}") = true
  /\ extract_json_from_response
       (txt "thinking..." ++ txt " noise " ++ qtxt "{'valid':'Thinking...'}")
     = qtxt "{'valid':''}"
  /\ qtxt "{'valid':''}" <> qtxt "{'valid':'Thinking...'}".
Proof.
  repeat split; vm_compute; discriminate.
Qed.

(* ================================================================== *)
(** ** X1: the extractor only cuts *)

Lemma subseq_refl (s : text) : subseq s s.
Proof. induction s; [apply subseq_nil | now apply subseq_keep]. Qed.

Lemma subseq_trans (a b c : text) : subseq a b -> subseq b c -> subseq a c.
Proof.
  intros Hab Hbc. revert a Hab.
  induction Hbc as [|x b c Hbc IH|x b c Hbc IH]; intros a Hab.
  - exact Hab.
  - constructor. now apply IH.
  - inversion Hab; subst.
    + apply subseq_skip. now apply IH.
    + apply subseq_keep. now apply IH.
Qed.

Lemma subseq_skipn (n : nat) (s : text) : subseq (skipn n s) s.
Proof.
  revert n; induction s as [|c s IH]; intros [|n]; cbn [skipn];
    try apply subseq_refl.
  apply subseq_skip. apply IH.
Qed.

Lemma re_sub_from_subseq (r : regex) (s : text) :
  forall skip, subseq (re_sub_from r [] skip s) s.
Proof.
  induction s as [|c s IH]; intro skip; cbn [re_sub_from].
  - destruct skip, (run r []); apply subseq_nil.
  - destruct skip as [|k]; [|apply subseq_skip, IH].
    destruct (run r (c :: s)) as [|m ms]; [apply subseq_keep, IH|].
    destruct (length (c :: s) - length (snd m)); cbn [app];
      [apply subseq_keep, IH | apply subseq_skip, IH].
Qed.

Lemma clean_subseq (content : text) : subseq (clean content) content.
Proof.
  assert (H : subseq (strip_preamble content) content).
  { unfold strip_preamble, re_sub.
    eapply subseq_trans; apply re_sub_from_subseq. }
  unfold clean.
  destruct (0 <? find_chr lbrace (strip_preamble content))%Z; [|exact H].
  eapply subseq_trans; [apply subseq_skipn | exact H].
Qed.

Lemma occurs_refl (s : text) : occurs s s.
Proof. exists [], []. now rewrite app_nil_r. Qed.

Lemma occurs_suffix (g p s : text) : occurs g s -> occurs g (p ++ s).
Proof.
  intros (a & b & ->). exists (p ++ a), b. now rewrite <- app_assoc.
Qed.

Lemma occurs_firstn (n : nat) (s : text) : occurs (firstn n s) s.
Proof. exists [], (skipn n s). cbn [app]. now rewrite firstn_skipn. Qed.

Lemma occurs_skipn (n : nat) (s : text) : occurs (skipn n s) s.
Proof. exists (firstn n s), []. now rewrite app_nil_r, firstn_skipn. Qed.

Lemma occurs_trans (a b c : text) : occurs a b -> occurs b c -> occurs a c.
Proof.
  intros (p & q & ->) (p' & q' & ->).
  exists (p' ++ p), (q ++ q'). now rewrite <- !app_assoc.
Qed.

(** The captured text is a piece of the input. *)
Lemma run_group_occurs (r : regex) :
  forall s m g, In m (run r s) -> fst m = Some g -> occurs g s.
Proof.
  induction r as [|p|a IHa b IHb|a IHa b IHb|p|p|a IHa|a IHa];
    intros s m g; cbn [run].
  - intros [<- | []]; discriminate.
  - destruct s as [|d t]; [intros []|].
    destruct (p d); [|intros []]. intros [<- | []]; discriminate.
  - rewrite in_flat_map. intros (m1 & H1 & H2).
    apply in_map_iff in H2 as (m2 & <- & H2). cbn [fst].
    destruct (fst m2) as [g2|] eqn:E2; cbn [later_group].
    + intros [= <-].
      destruct (run_suffix _ _ _ H1) as [p1 ->].
      apply occurs_suffix. eapply IHb; eauto.
    + intros Hg. eapply IHa; eauto.
  - rewrite in_app_iff. intros [H | H]; eauto.
  - rewrite in_map_iff. intros (rest & <- & _). discriminate.
  - rewrite in_map_iff. intros (rest & <- & _). discriminate.
  - rewrite in_map_iff. intros (m1 & <- & H). cbn [fst]. intros [= <-].
    apply occurs_firstn.
  - destruct (run a s); [intros [] | intros [<- | []]]; discriminate.
Qed.

Lemma group_text_occurs (r : regex) (s : text) (m : option text * text) :
  In m (run r s) -> occurs (group_text (fst m)) s.
Proof.
  intro H. destruct (fst m) as [g|] eqn:E; cbn [group_text].
  - exact (run_group_occurs r s m g H E).
  - now exists [], s.
Qed.

Lemma re_findall_from_occurs (r : regex) (s : text) :
  forall skip m, In m (re_findall_from r skip s) -> occurs m s.
Proof.
  induction s as [|d t IH]; intros skip m; cbn [re_findall_from].
  - destruct skip; [|intros []].
    destruct (run r []) as [|m0 ms] eqn:E; [intros []|].
    intros [<- | []]. apply (group_text_occurs r). rewrite E. now left.
  - assert (Htail : forall k, In m (re_findall_from r k t) -> occurs m (d :: t)).
    { intros k H. apply (occurs_suffix m [d] t). eauto. }
    destruct skip as [|k]; [|apply Htail].
    destruct (run r (d :: t)) as [|m0 ms] eqn:E; [apply Htail|].
    intros [<- | H]; [|eapply Htail; eauto].
    apply (group_text_occurs r). rewrite E. now left.
Qed.

Lemma outer_braces_occurs (cleaned cand : text) :
  outer_braces cleaned = Some cand -> occurs cand cleaned.
Proof.
  unfold outer_braces, slice.
  destruct (_ && _); [|discriminate]. intros [= <-].
  eapply occurs_trans; [apply occurs_firstn | apply occurs_skipn].
Qed.


(* ================================================================== *)
(** ** X2: an object inside commentary *)

Lemma never_matches_fences (s : text) :
  ~ In backtick s ->
  never_matches pat_fence_json s /\ never_matches pat_fence s.
Proof.
  intro Hs.
  assert (H : forall pre t p, s = pre ++ t ->
                prefix_by chr_eqb (backtick :: p) t = false).
  { intros pre t p ->. destruct t as [|c t]; [reflexivity|].
    cbn [prefix_by]. destruct (chr_eqb backtick c) eqn:E; [|reflexivity].
    apply chr_eqb_eq in E. subst c. exfalso. apply Hs, in_or_app.
    right. now left. }
  split; intros pre t E; unfold pat_fence_json, pat_fence, lit;
    cbn [run]; rewrite run_lit.
  - change (txt "```json") with (backtick :: txt "``json").
    now rewrite (H pre t _ E).
  - change (txt "```") with (backtick :: txt "``").
    now rewrite (H pre t _ E).
Qed.

Lemma clean_after_noise (pre rest : text) :
  ~ In lbrace pre ->
  unmarked (lbrace :: rest) ->
  clean (pre ++ lbrace :: rest) = lbrace :: rest.
Proof.
  intros Hpre (H1 & H2 & H3).
  destruct (strip_preamble_keeps_object pre rest Hpre H1 H2 H3)
    as (p & Hs & Hnb).
  unfold clean. rewrite Hs, (find_chr_first lbrace p rest Hnb).
  destruct p as [|c p]; [reflexivity|].
  replace (0 <? Z.of_nat (length (c :: p)))%Z with true
    by (symmetry; apply Z.ltb_lt; cbn [length]; lia).
  unfold slice_from. rewrite Nat2Z.id.
  rewrite skipn_app, skipn_all, Nat.sub_diag. reflexivity.
Qed.

Lemma flat_map_none {A B : Type} (f : A -> list B) (l : list A) :
  (forall x, In x l -> f x = []) -> flat_map f l = [].
Proof.
  induction l as [|x l IH]; cbn [flat_map]; intro H; [reflexivity|].
  rewrite (H x) by now left. apply IH. intros y Hy. apply H. now right.
Qed.

Lemma run_any_then_rbrace (t : text) :
  run (Seq (Star any_chr) (Chr (chr_eqb rbrace))) t
  = flat_map after_rbrace (star_rests any_chr t).
Proof.
  cbn [run]. induction (star_rests any_chr t) as [|rest l IH]; [reflexivity|].
  cbn [map flat_map snd fst]. rewrite IH. f_equal.
  destruct rest as [|c r]; [reflexivity|]. cbn [after_rbrace].
  destruct (chr_eqb rbrace c); reflexivity.
Qed.

Lemma star_rests_any_app (x y : text) :
  exists l, star_rests any_chr (x ++ y) = star_rests any_chr y ++ l.
Proof.
  induction x as [|c x [l IH]]; cbn [app].
  - exists []. now rewrite app_nil_r.
  - cbn [star_rests any_chr]. rewrite IH. eexists. now rewrite <- app_assoc.
Qed.

(** The greedy brace pattern, started on an opening brace, runs to the
    last closing brace. *)
Lemma run_braces_greedy_last (mid post : text) :
  ~ In rbrace post ->
  exists ms,
    run pat_braces_greedy (lbrace :: mid ++ rbrace :: post)
    = (Some (lbrace :: mid ++ [rbrace]), post) :: ms.
Proof.
  intro Hpost.
  assert (Hnone : flat_map after_rbrace (star_rests any_chr post) = []).
  { apply flat_map_none. intros rest Hr.
    apply star_rests_suffix in Hr as [p ->].
    destruct rest as [|c r]; [reflexivity|]. cbn [after_rbrace].
    destruct (chr_eqb rbrace c) eqn:E; [|reflexivity].
    apply chr_eqb_eq in E. subst c. exfalso. apply Hpost, in_or_app.
    right. now left. }
  destruct (star_rests_any_app mid (rbrace :: post)) as [l Hl].
  assert (Hrun : exists ms,
             run (Seq (Star any_chr) (Chr (chr_eqb rbrace)))
                 (mid ++ rbrace :: post) = (None, post) :: ms).
  { rewrite run_any_then_rbrace, Hl. cbn [star_rests any_chr].
    rewrite !flat_map_app, Hnone. cbn [flat_map after_rbrace app].
    rewrite chr_eqb_refl. eexists. reflexivity. }
  destruct Hrun as [ms Hrun].
  unfold pat_braces_greedy.
  change (run (Group (Seq (Chr (chr_eqb lbrace))
                          (Seq (Star any_chr) (Chr (chr_eqb rbrace)))))
              (lbrace :: mid ++ rbrace :: post))
    with (map (fun m => (Some (firstn (length (lbrace :: mid ++ rbrace :: post)
                                        - length (snd m))
                                      (lbrace :: mid ++ rbrace :: post)), snd m))
              (run (Seq (Chr (chr_eqb lbrace))
                        (Seq (Star any_chr) (Chr (chr_eqb rbrace))))
                   (lbrace :: mid ++ rbrace :: post))).
  change (run (Seq (Chr (chr_eqb lbrace))
                   (Seq (Star any_chr) (Chr (chr_eqb rbrace))))
              (lbrace :: mid ++ rbrace :: post))
    with (flat_map
            (fun m1 => map (fun m2 => (later_group (fst m1) (fst m2), snd m2))
                           (run (Seq (Star any_chr) (Chr (chr_eqb rbrace)))
                                (snd m1)))
            (run (Chr (chr_eqb lbrace)) (lbrace :: mid ++ rbrace :: post))).
  cbn [run]. rewrite chr_eqb_refl. cbn [flat_map snd fst].
  change (flat_map
            (fun m1 : option text * text =>
               map (fun m2 : option text * text =>
                      (later_group (fst m1) (fst m2), snd m2))
                   match snd m1 with
                   | [] => []
                   | c :: t => if chr_eqb rbrace c then [(None, t)] else []
                   end)
            (map (fun rest : text => (None, rest))
                 (star_rests any_chr (mid ++ rbrace :: post))))
    with (run (Seq (Star any_chr) (Chr (chr_eqb rbrace)))
              (mid ++ rbrace :: post)).
  rewrite Hrun. cbn [map app snd fst later_group].
  eexists. f_equal. f_equal. f_equal.
  replace (lbrace :: mid ++ rbrace :: post)
    with ((lbrace :: mid ++ [rbrace]) ++ post)
    by (cbn [app]; now rewrite <- app_assoc).
  rewrite length_app, Nat.add_sub, firstn_app, firstn_all, Nat.sub_diag.
  cbn [firstn]. now rewrite app_nil_r.
Qed.

Lemma re_findall_head (r : regex) (c : ascii) (t : text)
      (m : option text * text) (ms : list (option text * text)) :
  run r (c :: t) = m :: ms ->
  exists more, re_findall r (c :: t) = group_text (fst m) :: more.
Proof.
  intro H. unfold re_findall. cbn [re_findall_from]. rewrite H.
  eexists. reflexivity.
Qed.

(** X2.  A JSON object with commentary around it is recovered: when the
    text before the object holds no opening brace, the text after it no
    closing brace, and object and trailing text hold neither a backtick
    nor a marker, the result is the object itself; it keeps the trailing
    text only when that still parses with it (trailing whitespace). *)
Theorem object_in_commentary_recovered (pre mid post : text) :
  let obj := lbrace :: mid ++ [rbrace] in
  ~ In lbrace pre ->
  ~ In rbrace post ->
  ~ In backtick (obj ++ post) ->
  unmarked (obj ++ post) ->
  parses obj = true ->
  extract_json_from_response (pre ++ obj ++ post) =
  if parses (obj ++ post) then obj ++ post else obj.
Proof.
  intros obj Hpre Hpost Htick Hum Hp. subst obj.
  assert (Hc : clean (pre ++ (lbrace :: mid ++ [rbrace]) ++ post)
               = (lbrace :: mid ++ [rbrace]) ++ post).
  { cbn [app] in *. now apply clean_after_noise. }
  unfold extract_json_from_response. rewrite Hc.
  destruct (parses ((lbrace :: mid ++ [rbrace]) ++ post)); [reflexivity|].
  destruct (never_matches_fences _ Htick) as [Hf1 Hf2].
  apply re_findall_no_match in Hf1, Hf2.
  destruct (run_braces_greedy_last mid post Hpost) as [ms Hrun].
  assert (Heq : (mid ++ [rbrace]) ++ post = mid ++ rbrace :: post)
    by now rewrite <- app_assoc.
  destruct (re_findall_head _ _ _ _ _ Hrun) as [more Hmore].
  unfold pattern_matches, patterns. cbn [flat_map].
  rewrite Hf1, Hf2. cbn [app]. rewrite Heq, Hmore.
  cbn [app find fst group_text]. now rewrite Hp.
Qed.

Lemma object_in_commentary_recovered_sample :
  extract_json_from_response
    (txt "Sure! Here is the analysis: " ++ qtxt "{'valid':'json'}"
     ++ txt " Let me know.")
  = qtxt "{'valid':'json'}".
Proof.
  apply (object_in_commentary_recovered
           (txt "Sure! Here is the analysis: ") (qtxt "'valid':'json'")
           (txt " Let me know.")).
  - vm_compute. intuition discriminate.
  - vm_compute. intuition discriminate.
  - vm_compute. intuition discriminate.
  - repeat split.
  - reflexivity.
Defined.

(* ================================================================== *)
(** ** X3 and X4: the sanitizing client against the strict one *)

Lemma clean_unmarked (content : text) :
  unmarked content ->
  (find_chr lbrace content <= 0)%Z ->
  clean content = content.
Proof.
  intros (H1 & H2 & H3) Hf. unfold clean.
  rewrite (strip_preamble_unmarked _ H1 H2 H3).
  destruct (0 <? find_chr lbrace content)%Z eqn:E; [|reflexivity].
  apply Z.ltb_lt in E. lia.
Qed.

Lemma decode_content_clean (content : text) (v : json) :
  unmarked content ->
  (find_chr lbrace content <= 0)%Z ->
  json_loads content = Some v ->
  decode_content content = Returns v.
Proof.
  intros Hu Hf Hv.
  assert (Hx : extract_json_from_response content = content).
  { unfold extract_json_from_response. rewrite (clean_unmarked _ Hu Hf).
    unfold parses. now rewrite Hv. }
  now rewrite decode_content_eq, Hx, Hv.
Qed.



Lemma thinking_does_not_parse (rest : text) :
  json_loads (txt "thinking..." ++ rest) = None.
Proof. reflexivity. Qed.

(** X4.  A thinking preamble separates the two clients: on the text
    "thinking...", noise without an opening brace, then an object that
    parses and holds no marker, the strict client raises [RuntimeError]
    with the first 400 characters of the answer, and the sanitizing client
    returns the value of the object. *)
Theorem preamble_needs_sanitizing (noise rest : text) (v : json) :
  let obj := lbrace :: rest in
  let content := txt "thinking..." ++ noise ++ obj in
  ~ In lbrace noise ->
  unmarked obj ->
  json_loads obj = Some v ->
  decode_strict content
  = Raises (RuntimeError (txt "Model returned non-JSON: " ++ firstn 400 content))
  /\ decode_content content = Returns v.
Proof.
  intros obj content Hn (H1 & H2 & H3) Hv. split.
  - unfold decode_strict, content. now rewrite thinking_does_not_parse.
  - assert (Hp : parses obj = true) by (unfold parses; now rewrite Hv).
    assert (Hpre : ~ In lbrace (txt "thinking..." ++ noise)).
    { intro H. apply in_app_or in H as [H | H]; [|now apply Hn].
      vm_compute in H. intuition discriminate. }
    destruct (extract_after_noise (txt "thinking..." ++ noise) rest
                                  Hpre Hp H1 H2 H3) as [_ Hx].
    subst content obj. rewrite decode_content_eq, app_assoc, Hx.
    now rewrite Hv.
Qed.

Lemma preamble_needs_sanitizing_sample :
  decode_strict (txt "thinking... ok " ++ qtxt "{'valid':'json'}")
  = Raises (RuntimeError
              (txt "Model returned non-JSON: thinking... ok "
               ++ qtxt "{'valid':'json'}"))
  /\ decode_content (txt "thinking... ok " ++ qtxt "{'valid':'json'}")
     = Returns (JObj [(txt "valid", JStr (txt "json"))]).
Proof.
  apply (preamble_needs_sanitizing (txt " ok ") (tl (qtxt "{'valid':'json'}"))).
  - vm_compute. intuition discriminate.
  - repeat split.
  - reflexivity.
Defined.

(* ================================================================== *)
(** ** X5: the candidates are the catalog, reordered *)

Lemma candidates_NoDup (preferred models : list text) :
  NoDup preferred -> NoDup models -> NoDup (candidates preferred models).
Proof.
  intros Hp Hm. rewrite candidates_eq. apply NoDup_app.
  - now apply NoDup_filter.
  - now apply NoDup_filter.
  - intros x Hx Hy. apply filter_In in Hx as [Hx _].
    apply filter_In in Hy as [_ Hy].
    apply negb_true_iff, mem_false in Hy. contradiction.
Qed.

(** X5.  When neither the preferred list nor the catalog repeats a name,
    the candidates shown are a rearrangement of the catalog: no model is
    lost, none appears twice, and the numbers 1..N cover exactly the
    catalog. *)
Theorem candidates_rearrange_catalog (preferred models : list text) :
  NoDup preferred ->
  NoDup models ->
  Permutation (candidates preferred models) models
  /\ NoDup (candidates preferred models)
  /\ length (candidates preferred models) = length models.
Proof.
  intros Hp Hm.
  assert (Hperm : Permutation (candidates preferred models) models).
  { apply NoDup_Permutation; [now apply candidates_NoDup | exact Hm|].
    intro x. apply candidates_In. }
  split; [exact Hperm|]. split; [now apply candidates_NoDup|].
  now apply Permutation_length.
Qed.

Lemma candidates_rearrange_catalog_sample :
  Permutation
    (candidates PREFERRED_OLLAMA
                [txt "llama3.1:8b"; txt "mistral:7b"; txt "qwen2.5:7b"])
    [txt "llama3.1:8b"; txt "mistral:7b"; txt "qwen2.5:7b"].
Proof.
  apply (candidates_rearrange_catalog PREFERRED_OLLAMA
           [txt "llama3.1:8b"; txt "mistral:7b"; txt "qwen2.5:7b"]).
  - repeat constructor; cbn; intuition discriminate.
  - repeat constructor; cbn; intuition discriminate.
Defined.

(** Without the hypothesis on the preferred list the statement fails: a
    preferred name given twice is shown twice. *)
Example candidates_repeat_preferred :
  candidates [txt "a"; txt "a"] [txt "a"; txt "b"] = [txt "a"; txt "a"; txt "b"].
Proof. reflexivity. Qed.

(* ================================================================== *)
(** ** X6: names from the listing command are single tokens *)

Lemma no_space_rev (cur : text) :
  forallb (fun c => negb (isspace c)) cur = true ->
  forallb (fun c => negb (isspace c)) (rev cur) = true.
Proof.
  rewrite !forallb_forall. intros H x Hx. apply H. now apply in_rev.
Qed.

Lemma split_ws_aux_tokens (s : text) :
  forall cur tok,
    forallb (fun c => negb (isspace c)) cur = true ->
    In tok (split_ws_aux cur s) ->
    tok <> [] /\ forallb (fun c => negb (isspace c)) tok = true.
Proof.
  assert (Hrev : forall c cur,
             forallb (fun c => negb (isspace c)) (c :: cur) = true ->
             rev (c :: cur) <> []
             /\ forallb (fun c => negb (isspace c)) (rev (c :: cur)) = true).
  { intros c cur H. split; [|now apply no_space_rev].
    cbn [rev]. intro E. now apply app_eq_nil in E as [_ [=]]. }
  induction s as [|c s IH]; intros cur tok Hcur; cbn [split_ws_aux].
  - destruct cur as [|d cur]; [intros []|].
    intros [<- | []]. now apply Hrev.
  - destruct (isspace c) eqn:E.
    + destruct cur as [|d cur]; [now apply IH|].
      intros [<- | H]; [now apply Hrev | now apply (IH [])].
    + apply IH. cbn [forallb]. now rewrite E.
Qed.

Lemma split_ws_tokens (s tok : text) :
  In tok (split_ws s) ->
  tok <> [] /\ forallb (fun c => negb (isspace c)) tok = true.
Proof. now apply split_ws_aux_tokens. Qed.

(** X6.  Whatever the listing command does, every name the fallback
    listing returns is one token: it is not empty and holds no whitespace
    character. *)
Theorem cli_names_are_tokens (b : flavor) (reply : cli_reply)
        (l : list text) (m : text) :
  _list_models_via_cli b reply = Returns l ->
  In m l ->
  m <> [] /\ forallb (fun c => negb (isspace c)) m = true.
Proof.
  destruct reply as [e|out]; cbn [_list_models_via_cli try_except is_Exception].
  - intros [= <-] [].
  - intros [= <-] Hm.
    apply sorted_set_In, cli_names_In in Hm as (line & rest & _ & Hs & _).
    apply (split_ws_tokens (strip line)). rewrite Hs. now left.
Qed.

Lemma cli_names_are_tokens_sample :
  txt "llama3:8b" <> []
  /\ forallb (fun c => negb (isspace c)) (txt "llama3:8b") = true.
Proof.
  apply (cli_names_are_tokens Ollama
           (CliOutput (txt "NAME  ID" ++ newline ++ txt "  llama3:8b   4GB "))
           [txt "llama3:8b"]).
  - reflexivity.
  - now left.
Defined.

(* ================================================================== *)
(** ** X7: the file prompt returns an existing path *)

(** X7.  [get_input_file] never raises.  A path it returns exists, and it
    is the default file, chosen by a blank line, or a typed line with the
    surrounding whitespace removed; lines naming missing files are passed
    over.  When the input ends or is interrupted first, the run exits with
    status 0. *)
Theorem get_input_file_returns_existing_path
        (path_exists : text -> bool) (default_file : text)
        (inputs : list key_event) :
  match get_input_file path_exists default_file inputs with
  | Returns p =>
      path_exists p = true
      /\ exists l,
          In (Line l) inputs
          /\ (strip l = [] /\ p = default_file \/ strip l <> [] /\ p = strip l)
  | Exits code => code = 0%Z
  | Raises _ => False
  end.
Proof.
  induction inputs as [|[l|] rest IH]; cbn [get_input_file]; try reflexivity.
  destruct (strip l) as [|c p] eqn:El.
  - destruct (path_exists default_file) eqn:E.
    + split; [exact E|]. exists l. split; [now left | left; now split].
    + destruct (get_input_file path_exists default_file rest); auto.
      destruct IH as (Hp & l' & Hin & H). split; [exact Hp|].
      exists l'. split; [now right | exact H].
  - destruct (path_exists (c :: p)) eqn:E.
    + split; [exact E|]. exists l. split; [now left|].
      right. rewrite El. split; [discriminate | reflexivity].
    + destruct (get_input_file path_exists default_file rest); auto.
      destruct IH as (Hp & l' & Hin & H). split; [exact Hp|].
      exists l'. split; [now right | exact H].
Qed.

Example get_input_file_example :
  let path_exists p := text_eqb p (txt "news.txt") in
  get_input_file path_exists (txt "post.txt")
    [Line []; Line (txt "nope.txt"); Line (txt "  news.txt "); Line (txt "x")]
  = Returns (txt "news.txt")
  /\ get_input_file path_exists (txt "post.txt") [Line []; CtrlC] = Exits 0.
Proof. split; reflexivity. Qed.

(* ================================================================== *)
(** ** X9: typing the number of a model selects it *)

Lemma numeral_digits (d : Decimal.uint) : forallb is_digit (numeral d) = true.
Proof.
  unfold numeral. induction d; cbn [NilEmpty.string_of_uint list_ascii_of_string forallb];
    try reflexivity; rewrite IHd; reflexivity.
Qed.

Lemma digits_aux_numeral_acc (d : Decimal.uint) :
  forall acc n,
    fst (fst (digits_aux (Z.pos acc) n (numeral d)))
    = Z.pos (Pos.of_uint_acc d acc).
Proof.
  unfold numeral.
  induction d; intros acc n;
    cbn [NilEmpty.string_of_uint list_ascii_of_string digits_aux Pos.of_uint_acc];
    try reflexivity;
    match goal with
    | |- context [is_digit ?c] => change (is_digit c) with true; cbv iota
    end;
    match goal with
    | |- context [digit_val ?c] =>
        let v := eval vm_compute in (digit_val c) in
        change (digit_val c) with v
    end;
    match goal with
    | |- fst (fst (digits_aux ?z _ _)) = Z.pos (Pos.of_uint_acc _ ?a) =>
        replace z with (Z.pos a) by lia
    end;
    apply IHd.
Qed.

Lemma digits_aux_numeral (d : Decimal.uint) :
  forall n, fst (fst (digits_aux 0 n (numeral d))) = Z.of_N (Pos.of_uint d).
Proof.
  unfold numeral.
  induction d; intro n;
    cbn [NilEmpty.string_of_uint list_ascii_of_string digits_aux Pos.of_uint];
    try reflexivity;
    match goal with
    | |- context [is_digit ?c] => change (is_digit c) with true; cbv iota
    end;
    match goal with
    | |- context [digit_val ?c] =>
        let v := eval vm_compute in (digit_val c) in
        change (digit_val c) with v
    end;
    cbn [Z.mul Z.add Z.of_N];
    try apply IHd;
    apply (digits_aux_numeral_acc d).
Qed.

Lemma str_of_Z_pos (p : positive) :
  str_of_Z (Z.pos p) = numeral (Pos.to_uint p) /\ numeral (Pos.to_uint p) <> [].
Proof.
  unfold str_of_Z, numeral. cbn [Z.to_int NilZero.string_of_int].
  pose proof (Unsigned.of_to p) as H.
  destruct (Pos.to_uint p); cbn [Pos.of_uint] in H; try discriminate H;
    cbn [NilZero.string_of_uint NilEmpty.string_of_uint list_ascii_of_string];
    split; try reflexivity; discriminate.
Qed.

(** [int(str(k)) = k] for a positive [k]. *)
Lemma py_int_str_of_Z (p : positive) :
  forallb is_digit (str_of_Z (Z.pos p)) = true
  /\ str_of_Z (Z.pos p) <> []
  /\ fst (fst (digits (str_of_Z (Z.pos p)))) = Z.pos p.
Proof.
  destruct (str_of_Z_pos p) as [-> Hne].
  split; [apply numeral_digits|]. split; [exact Hne|].
  unfold digits. rewrite digits_aux_numeral, Unsigned.of_to. reflexivity.
Qed.

Lemma digit_not_space (c : ascii) : is_digit c = true -> isspace c = false.
Proof.
  destruct c as [[|] [|] [|] [|] [|] [|] [|] [|]]; vm_compute; congruence.
Qed.

Lemma lstrip_digit (s : text) : forallb is_digit s = true -> lstrip s = s.
Proof.
  destruct s as [|c s]; [reflexivity|]. cbn [forallb lstrip].
  intro H. apply andb_true_iff in H as [H _].
  now rewrite (digit_not_space c H).
Qed.

Lemma strip_digits (s : text) : forallb is_digit s = true -> strip s = s.
Proof.
  intro H. unfold strip, rstrip. rewrite (lstrip_digit s H).
  rewrite lstrip_digit; [apply rev_involutive|].
  apply forallb_forall. intros x Hx. rewrite forallb_forall in H.
  apply H. now apply in_rev.
Qed.

Lemma digit_lower (c : ascii) : is_digit c = true -> lower_chr c = c.
Proof.
  destruct c as [[|] [|] [|] [|] [|] [|] [|] [|]]; vm_compute; congruence.
Qed.

Lemma lower_digits (s : text) : forallb is_digit s = true -> lower s = s.
Proof.
  induction s as [|c s IH]; cbn [forallb lower map]; [reflexivity|].
  intro H. apply andb_true_iff in H as [Hc Hs].
  rewrite (digit_lower c Hc). f_equal. now apply IH.
Qed.

Lemma py_index_in_range (l : list text) (k : Z) :
  (1 <= k <= Z.of_nat (length l))%Z ->
  exists m, nth_error l (Z.to_nat (k - 1)) = Some m
            /\ py_index l (k - 1) = Returns m.
Proof.
  intro Hk. unfold py_index.
  destruct (nth_error l (Z.to_nat (k - 1))) as [m|] eqn:E.
  - now exists m.
  - apply nth_error_None in E. lia.
Qed.

(** X9.  Typing the number shown for a model selects that model: for
    every k in 1..N the line [str(k)] makes the choosers return the k-th
    candidate, whatever lines follow. *)
Theorem typed_number_selects_model (cands : list text) (k : Z)
        (rest : list key_event) :
  (1 <= k <= Z.of_nat (length cands))%Z ->
  exists m,
    nth_error cands (Z.to_nat (k - 1)) = Some m
    /\ select_loop cands (Line (str_of_Z k) :: rest) = Returns m
    /\ forall default_model,
        default_loop cands default_model (Line (str_of_Z k) :: rest) = Returns m.
Proof.
  intro Hk. destruct (py_index_in_range cands k Hk) as (m & Hn & Hm).
  exists m. split; [exact Hn|].
  destruct k as [|p|p]; try lia.
  destruct (py_int_str_of_Z p) as (Hd & Hne & Hv).
  assert (Hin : ((1 <=? Z.pos p) && (Z.pos p <=? Z.of_nat (length cands)))%Z = true).
  { apply andb_true_iff. split; apply Z.leb_le; lia. }
  assert (Hdig : isdigit (str_of_Z (Z.pos p)) = true).
  { unfold isdigit. destruct (str_of_Z (Z.pos p)) as [|c s]; [congruence|].
    apply forallb_forall. intros x Hx. rewrite forallb_forall in Hd.
    unfold isdigit_chr. now rewrite (Hd x Hx). }
  assert (Hint : py_int (str_of_Z (Z.pos p)) = Returns (Z.pos p)).
  { unfold py_int. now rewrite Hd, Hv. }
  split.
  - cbn [select_loop]. rewrite (strip_digits _ Hd).
    destruct (str_of_Z (Z.pos p)) as [|c s] eqn:E; [congruence|].
    rewrite Hdig, Hint. cbn [bind]. now rewrite Hin.
  - intro d. cbn [default_loop].
    rewrite (strip_digits _ Hd), (lower_digits _ Hd).
    assert (Hq : text_eqb (str_of_Z (Z.pos p)) (txt "q") = false).
    { apply text_eqb_neq. intro E. rewrite E in Hd. discriminate. }
    rewrite Hq.
    destruct (str_of_Z (Z.pos p)) as [|c s] eqn:E; [congruence|].
    rewrite Hdig, Hint. cbn [bind]. now rewrite Hin.
Qed.

Lemma typed_number_selects_model_sample :
  exists m,
    nth_error [txt "a:1"; txt "b:2"; txt "c:3"] 1 = Some m
    /\ select_loop [txt "a:1"; txt "b:2"; txt "c:3"] [Line (txt "2")] = Returns m
    /\ forall default_model,
        default_loop [txt "a:1"; txt "b:2"; txt "c:3"] default_model
                     [Line (txt "2")] = Returns m.
Proof.
  apply (typed_number_selects_model [txt "a:1"; txt "b:2"; txt "c:3"] 2 []).
  cbn. lia.
Defined.

(* ================================================================== *)
(** ** Choosing a model after discovery *)

Lemma py_int_raises (s : text) (e : exn) : py_int s = Raises e -> e = ValueError.
Proof.
  unfold py_int. destruct (forallb is_digit s); intro H; congruence.
Qed.

Lemma py_int_no_exit (s : text) (code : Z) : py_int s <> Exits code.
Proof.
  unfold py_int. destruct (forallb is_digit s); congruence.
Qed.

Lemma py_index_in_bounds (l : list text) (i : Z) :
  (0 <= i < Z.of_nat (length l))%Z -> exists m, py_index l i = Returns m /\ In m l.
Proof.
  intro Hi. unfold py_index.
  destruct (nth_error l (Z.to_nat i)) as [m|] eqn:E.
  - exists m. split; [reflexivity|]. eapply nth_error_In; eauto.
  - apply nth_error_None in E. lia.
Qed.

(** With candidates to show, the loop of the two clients returns a
    candidate or stops on the end of input, an interrupt, or a number
    [int] refuses. *)
Lemma select_loop_outcomes (cands : list text) (inputs : list key_event) :
  cands <> [] ->
  match select_loop cands inputs with
  | Returns m => In m cands
  | Raises e => e = EOFError \/ e = KeyboardInterrupt \/ e = ValueError
  | Exits _ => False
  end.
Proof.
  intro Hne.
  induction inputs as [|ev rest IH]; cbn [select_loop]; [now left|].
  destruct ev as [l|]; [|right; now left].
  destruct (strip l) as [|c sel] eqn:Es.
  - destruct (py_index_in_bounds cands 0) as (m & -> & Hm); [|exact Hm].
    destruct cands; [congruence|]. cbn [length]. lia.
  - destruct (isdigit (c :: sel)); [|exact IH].
    destruct (py_int (c :: sel)) as [idx|e|code] eqn:Ei; cbn [bind].
    + destruct ((1 <=? idx) && (idx <=? Z.of_nat (length cands)))%Z eqn:Eb;
        [|exact IH].
      apply andb_true_iff in Eb as [H1 H2].
      apply Z.leb_le in H1. apply Z.leb_le in H2.
      destruct (py_index_in_bounds cands (idx - 1)) as (m & -> & Hm);
        [lia | exact Hm].
    + right; right. eapply py_int_raises; eauto.
    + exfalso. eapply py_int_no_exit; eauto.
Qed.

Lemma list_cli_returns (b : flavor) (reply : cli_reply) :
  exists l, _list_models_via_cli b reply = Returns l.
Proof.
  unfold _list_models_via_cli. apply try_except_returns.
  destruct reply; cbn; reflexivity.
Qed.

Lemma list_api_returns (b : flavor) (reply : transport) :
  exists l, _list_models_via_api b reply = Returns l.
Proof.
  unfold _list_models_via_api. apply try_except_returns, catchable_list_api.
Qed.


(* ================================================================== *)
(** ** The chooser of tests/test_model.py *)

Lemma cli_names_ollama_tagged (reply : cli_reply) (l : list text) (m : text) :
  _list_models_via_cli Ollama reply = Returns l -> In m l -> In colon m.
Proof.
  destruct reply as [e|out]; cbn [_list_models_via_cli try_except is_Exception].
  - intros [= <-] [].
  - intros [= <-] Hm.
    apply sorted_set_In, cli_names_In in Hm as (line & rest & _ & _ & Hl).
    now apply (looks_like_model_chars Ollama) in Hl.
Qed.

(** X10.  A default model whose name carries no tag (no colon) is never
    an entry of a catalog that comes from [ollama list], so on such a
    catalog a blank answer returns the first model listed. *)
Theorem untagged_default_absent_from_cli_catalog
        (reply : cli_reply) (default_model first : text) (others : list text)
        (blank : text) (rest : list key_event) :
  ~ In colon default_model ->
  _list_models_via_cli Ollama reply = Returns (first :: others) ->
  strip blank = [] ->
  ~ In default_model (first :: others)
  /\ choose_model_default (first :: others) default_model (Line blank :: rest)
     = Returns first.
Proof.
  intros Hd Hl Hb.
  assert (Hno : ~ In default_model (first :: others)).
  { intro Hin. apply Hd. eapply cli_names_ollama_tagged; eauto. }
  split; [exact Hno|].
  cbn [choose_model_default default_loop]. rewrite Hb.
  apply mem_false in Hno. cbn [lower map]. rewrite Hno. reflexivity.
Qed.

Lemma untagged_default_absent_from_cli_catalog_sample :
  ~ In DEFAULT_MODEL [txt "llama3:8b"; txt "mistral:7b"]
  /\ choose_model_default [txt "llama3:8b"; txt "mistral:7b"] DEFAULT_MODEL
       [Line (txt "  ")]
     = Returns (txt "llama3:8b").
Proof.
  apply (untagged_default_absent_from_cli_catalog
           (CliOutput (txt "NAME  ID" ++ newline ++ txt "mistral:7b  1"
                       ++ newline ++ txt "llama3:8b  2"))
           DEFAULT_MODEL (txt "llama3:8b") [txt "mistral:7b"] (txt "  ") []).
  - vm_compute. intuition discriminate.
  - reflexivity.
  - reflexivity.
Defined.

(** X11.  The chooser of tests/test_model.py leaves with status 1 exactly
    on an empty catalog and with status 0 otherwise (the letter q, the end
    of input, an interrupt); what it returns is an entry of the catalog;
    the only exception that escapes it is the [ValueError] of [int]. *)
Theorem chooser_default_outcomes (models : list text) (default_model : text)
        (inputs : list key_event) :
  match choose_model_default models default_model inputs with
  | Returns m => In m models
  | Exits code => (code = 1%Z /\ models = []) \/ (code = 0%Z /\ models <> [])
  | Raises e => e = ValueError /\ models <> []
  end.
Proof.
  unfold choose_model_default.
  destruct models as [|m0 ms]; [left; now split|].
  set (models := m0 :: ms).
  assert (Hne : models <> []) by (unfold models; congruence).
  assert (H0 : In m0 models) by now left.
  clearbody models.
  induction inputs as [|ev rest IH]; cbn [default_loop];
    [right; now split|].
  destruct ev as [l|]; [|right; now split].
  destruct (text_eqb (lower (strip l)) (txt "q")); [right; now split|].
  destruct (lower (strip l)) as [|c sel] eqn:Es.
  - destruct (mem default_model models) eqn:Ed; [now apply mem_In|].
    destruct (py_index_in_bounds models 0) as (m & -> & Hm); [|exact Hm].
    destruct models; [congruence|]. cbn [length]. lia.
  - assert (Hby : match (if mem (c :: sel) models then Returns (c :: sel)
                         else default_loop models default_model rest) with
                  | Returns m => In m models
                  | Exits code =>
                      (code = 1%Z /\ models = []) \/ (code = 0%Z /\ models <> [])
                  | Raises e => e = ValueError /\ models <> []
                  end).
    { destruct (mem (c :: sel) models) eqn:Em; [now apply mem_In | exact IH]. }
    destruct (isdigit (c :: sel)); [|exact Hby].
    destruct (py_int (c :: sel)) as [idx|e|code] eqn:Ei; cbn [bind].
    + destruct ((1 <=? idx) && (idx <=? Z.of_nat (length models)))%Z eqn:Eb;
        [|exact Hby].
      apply andb_true_iff in Eb as [H1 H2].
      apply Z.leb_le in H1. apply Z.leb_le in H2.
      destruct (py_index_in_bounds models (idx - 1)) as (m & -> & Hm);
        [lia | exact Hm].
    + split; [eapply py_int_raises; eauto | exact Hne].
    + exfalso. eapply py_int_no_exit; eauto.
Qed.

(* ================================================================== *)
(** ** How a run of tests/test_ollama.py ends *)

Lemma catchable_message_content (data : json) : catchable (message_content data).
Proof.
  unfold message_content.
  apply catchable_bind; [apply catchable_py_get|]. intro message.
  apply catchable_bind; [apply catchable_py_get_default|]. intro content.
  destruct content; cbn; auto.
Qed.

Lemma catchable_decode_strict (content : text) : catchable (decode_strict content).
Proof. unfold decode_strict. destruct (json_loads content); cbn; auto. Qed.

(** The strict client returns or raises an [Exception]; it never leaves
    through [sys.exit]. *)
Lemma catchable_call_ollama_strict (backend : json -> transport)
      (model prompt : text) :
  catchable (call_ollama_strict backend model prompt).
Proof.
  unfold call_ollama_strict.
  destruct (backend (payload_strict model prompt)) as [e|resp]; [reflexivity|].
  destruct (negb (status_code resp =? 200)%Z); [reflexivity|].
  destruct (json_loads (body resp)) as [data|]; [|reflexivity].
  apply catchable_bind; [apply catchable_message_content|].
  intro content. apply catchable_decode_strict.
Qed.

(** The chooser with discovery returns a model, leaves with status 1, or
    stops on the end of input, an interrupt or a number [int] refuses. *)
Lemma chooser_run (b : flavor) (preferred : list text) (api : transport)
      (cli : cli_reply) (inputs : list key_event) :
  (exists model, choose_model_interactive b preferred api cli inputs = Returns model)
  \/ choose_model_interactive b preferred api cli inputs = Exits 1
  \/ (exists e, choose_model_interactive b preferred api cli inputs = Raises e
                /\ (e = EOFError \/ e = KeyboardInterrupt \/ e = ValueError)).
Proof.
  assert (Hsel : forall models,
            (exists model, choose_model_preferred models preferred inputs = Returns model)
            \/ choose_model_preferred models preferred inputs = Exits 1
            \/ (exists e, choose_model_preferred models preferred inputs = Raises e
                 /\ (e = EOFError \/ e = KeyboardInterrupt \/ e = ValueError))).
  { intro models. unfold choose_model_preferred.
    destruct models as [|m0 ms]; [right; now left|].
    assert (Hc : candidates preferred (m0 :: ms) <> []).
    { intro E. assert (Hin : In m0 (candidates preferred (m0 :: ms)))
        by (apply candidates_In; now left).
      rewrite E in Hin. exact Hin. }
    pose proof (select_loop_outcomes _ inputs Hc) as H.
    destruct (select_loop (candidates preferred (m0 :: ms)) inputs) as [m|e|code].
    - left. now exists m.
    - right; right. now exists e.
    - destruct H. }
  unfold choose_model_interactive, get_installed_models.
  destruct (list_api_returns b api) as (la & ->).
  destruct (list_cli_returns b cli) as (lc & Hc).
  destruct la as [|a la]; cbn [fst]; [rewrite Hc|]; cbn [bind]; apply Hsel.
Qed.


Example main_ollama_named_model_run :
  main_ollama (txt "Post: ## POST TEXT IS HERE ##") (ReadGives (txt " rates cut "))
              (Some (txt "llama3.1:8b")) (Fails ConnectionFailed) (CliFails CommandNotFound) []
              (fun _ => Responds (Response 200 (qtxt "{'message':{'content':'{}'}}")))
  = (Exit 0, Some (JObj [])).
Proof. reflexivity. Qed.

(* ================================================================== *)
(** ** The prompt ([build_prompt]) *)

Lemma str_replace_from_skip (old new : text) (s : text) :
  forall skip,
    str_replace_from old new skip s = str_replace_from old new 0 (skipn skip s).
Proof.
  induction s as [|c t IH]; intros [|k]; cbn [str_replace_from skipn];
    try reflexivity.
  apply IH.
Qed.

Lemma str_replace_from_absent (old new s : text) :
  old <> [] -> str_in old s = false -> str_replace_from old new 0 s = s.
Proof.
  intros Ho. unfold str_in.
  induction s as [|c t IH]; cbn [str_replace_from contains_by]; [reflexivity|].
  intro H. apply orb_false_iff in H as [Hp Ht].
  rewrite Hp. f_equal. now apply IH.
Qed.

Lemma str_replace_from_here (old new post : text) :
  old <> [] ->
  str_replace_from old new 0 (old ++ post)
  = new ++ str_replace_from old new 0 post.
Proof.
  intro Ho. destruct old as [|a o]; [congruence|].
  change ((a :: o) ++ post) with (a :: (o ++ post)).
  cbn [str_replace_from].
  assert (Hp : prefix_by chr_eqb (a :: o) (a :: o ++ post) = true)
    by (apply prefix_by_eq; now exists post).
  rewrite Hp. f_equal.
  rewrite str_replace_from_skip.
  replace (length (a :: o) - 1) with (length o) by (cbn [length]; lia).
  now rewrite skipn_app, skipn_all, Nat.sub_diag.
Qed.

Lemma prefix_by_app (eq : ascii -> ascii -> bool) (p : text) :
  forall u v, length p <= length u ->
              prefix_by eq p (u ++ v) = prefix_by eq p u.
Proof.
  induction p as [|a p IH]; intros u v Hl; [reflexivity|].
  destruct u as [|b u]; cbn [length] in Hl; [lia|].
  cbn [app prefix_by]. rewrite IH by lia. reflexivity.
Qed.

Lemma removelast_shorter (s : text) : length (removelast s) = length s - 1.
Proof.
  induction s as [|c t IH]; [reflexivity|].
  destruct t as [|d t]; [reflexivity|].
  change (removelast (c :: d :: t)) with (c :: removelast (d :: t)).
  cbn [length] in *. lia.
Qed.

Lemma str_replace_from_before (old new post : text) :
  old <> [] ->
  forall pre,
    str_in old (pre ++ removelast old) = false ->
    str_replace_from old new 0 (pre ++ old ++ post)
    = pre ++ str_replace_from old new 0 (old ++ post).
Proof.
  intros Ho. unfold str_in.
  induction pre as [|c pre IH]; [reflexivity|].
  cbn [app contains_by str_replace_from].
  intro H. apply orb_false_iff in H as [Hp Ht].
  assert (Hq : prefix_by chr_eqb old (c :: pre ++ old ++ post) = false).
  { rewrite <- Hp.
    rewrite (app_removelast_last c Ho) at 2.
    rewrite <- app_assoc, app_assoc.
    change (c :: (pre ++ removelast old) ++ ([last old c] ++ post))
      with ((c :: pre ++ removelast old) ++ ([last old c] ++ post)).
    apply prefix_by_app. cbn [length]. rewrite length_app, removelast_shorter.
    destruct old; [congruence|]. cbn [length]. lia. }
  rewrite Hq. f_equal. now apply IH.
Qed.

Lemma post_marker_not_empty : POST_MARKER <> [].
Proof. discriminate. Qed.

(** X13.  When the marker occurs once in the template, [build_prompt]
    puts the stripped post text in its place and leaves the rest of the
    template as it is; the inserted text is not scanned again, so a post
    that itself holds the marker is inserted unchanged. *)
Theorem build_prompt_fills_marker (pre post post_text : text) :
  str_in POST_MARKER (pre ++ removelast POST_MARKER) = false ->
  str_in POST_MARKER post = false ->
  build_prompt (pre ++ POST_MARKER ++ post) post_text
  = pre ++ strip post_text ++ post.
Proof.
  intros Hpre Hpost. unfold build_prompt, str_replace.
  change (match POST_MARKER with
          | [] => strip post_text
                  ++ flat_map (fun c => c :: strip post_text)
                       (pre ++ POST_MARKER ++ post)
          | _ :: _ => str_replace_from POST_MARKER (strip post_text) 0
                        (pre ++ POST_MARKER ++ post)
          end)
    with (str_replace_from POST_MARKER (strip post_text) 0
            (pre ++ POST_MARKER ++ post)).
  rewrite (str_replace_from_before _ _ _ post_marker_not_empty _ Hpre).
  rewrite (str_replace_from_here _ _ _ post_marker_not_empty).
  now rewrite (str_replace_from_absent _ _ _ post_marker_not_empty Hpost).
Qed.

Lemma build_prompt_fills_marker_sample :
  build_prompt (txt "Post: " ++ POST_MARKER ++ txt " End.")
               (txt "  see ## POST TEXT IS HERE ## ")
  = txt "Post: " ++ txt "see ## POST TEXT IS HERE ##" ++ txt " End.".
Proof.
  apply (build_prompt_fills_marker (txt "Post: ") (txt " End.")
           (txt "  see ## POST TEXT IS HERE ## ")); reflexivity.
Defined.

(** X14.  A template without the marker is returned as it is: the post
    text does not reach the prompt. *)
Theorem build_prompt_without_marker (PROMPT_TMPL post_text : text) :
  str_in POST_MARKER PROMPT_TMPL = false ->
  build_prompt PROMPT_TMPL post_text = PROMPT_TMPL.
Proof.
  intro H. unfold build_prompt, str_replace.
  exact (str_replace_from_absent _ _ _ post_marker_not_empty H).
Qed.

Lemma build_prompt_without_marker_sample :
  build_prompt (txt "Analyse the post. ## POST TEXT HERE ##") (txt "rates cut")
  = txt "Analyse the post. ## POST TEXT HERE ##".
Proof.
  apply (build_prompt_without_marker
           (txt "Analyse the post. ## POST TEXT HERE ##") (txt "rates cut")).
  reflexivity.
Defined.

(* ================================================================== *)
(** ** The last resort of [call_ollama] in tests/test_model.py *)



(* ================================================================== *)
(** ** The session of tests/test_model.py *)

(** The loops that keep the unread input are the loops of the choosers. *)
Lemma default_loop_io_fst (models : list text) (d : text)
      (inputs : list key_event) :
  fst (default_loop_io models d inputs) = default_loop models d inputs.
Proof.
  induction inputs as [|ev rest IH]; cbn [default_loop_io default_loop];
    [reflexivity|].
  destruct ev as [l|]; [|reflexivity].
  destruct (text_eqb (lower (strip l)) (txt "q")); [reflexivity|].
  destruct (lower (strip l)) as [|c sel]; [reflexivity|].
  destruct (isdigit (c :: sel)).
  - destruct (py_int (c :: sel)) as [idx|e|code]; cbn [bind]; try reflexivity.
    destruct ((1 <=? idx) && (idx <=? Z.of_nat (length models)))%Z;
      [reflexivity|].
    destruct (mem (c :: sel) models); [reflexivity | exact IH].
  - destruct (mem (c :: sel) models); [reflexivity | exact IH].
Qed.

Lemma get_input_file_io_fst (path_exists : text -> bool) (d : text)
      (inputs : list key_event) :
  fst (get_input_file_io path_exists d inputs)
  = get_input_file path_exists d inputs.
Proof.
  induction inputs as [|ev rest IH]; cbn [get_input_file_io get_input_file];
    [reflexivity|].
  destruct ev as [l|]; [|reflexivity].
  destruct (path_exists match strip l with [] => d | c :: p => c :: p end);
    [reflexivity | exact IH].
Qed.

Lemma default_loop_io_outcomes (models : list text) (d : text) :
  models <> [] ->
  forall inputs,
    match default_loop_io models d inputs with
    | (Returns m, rest) => In m models /\ length rest < length inputs
    | (Exits code, _) => code = 0%Z
    | (Raises e, _) => e = ValueError
    end.
Proof.
  intro Hne.
  induction inputs as [|ev rest IH]; cbn [default_loop_io]; [reflexivity|].
  destruct ev as [l|]; [|reflexivity].
  destruct (text_eqb (lower (strip l)) (txt "q")); [reflexivity|].
  assert (Hweak :
            match default_loop_io models d rest with
            | (Returns m, rest') =>
                In m models /\ length rest' < length (Line l :: rest)
            | (Exits code, _) => code = 0%Z
            | (Raises e, _) => e = ValueError
            end).
  { destruct (default_loop_io models d rest) as [[m|e|code] rest'];
      [|exact IH|exact IH].
    destruct IH as [Hm Hl]. split; [exact Hm|]. cbn [length]. lia. }
  destruct (lower (strip l)) as [|c sel] eqn:Es.
  - destruct (mem d models) eqn:Ed.
    + split; [now apply mem_In | cbn [length]; lia].
    + destruct (py_index_in_bounds models 0) as (m & -> & Hm).
      * destruct models; [congruence|]. cbn [length]. lia.
      * split; [exact Hm | cbn [length]; lia].
  - assert (Hby : match (if mem (c :: sel) models then (Returns (c :: sel), rest)
                         else default_loop_io models d rest) with
                  | (Returns m, rest') =>
                      In m models /\ length rest' < length (Line l :: rest)
                  | (Exits code, _) => code = 0%Z
                  | (Raises e, _) => e = ValueError
                  end).
    { destruct (mem (c :: sel) models) eqn:Em; [|exact Hweak].
      split; [now apply mem_In | cbn [length]; lia]. }
    destruct (isdigit (c :: sel)); [|exact Hby].
    destruct (py_int (c :: sel)) as [idx|e|code] eqn:Ei.
    + destruct ((1 <=? idx) && (idx <=? Z.of_nat (length models)))%Z eqn:Eb;
        [|exact Hby].
      apply andb_true_iff in Eb as [H1 H2].
      apply Z.leb_le in H1. apply Z.leb_le in H2.
      destruct (py_index_in_bounds models (idx - 1)) as (m & -> & Hm); [lia|].
      split; [exact Hm | cbn [length]; lia].
    + eapply py_int_raises; eauto.
    + exfalso. eapply py_int_no_exit; eauto.
Qed.

Lemma get_input_file_io_outcomes (path_exists : text -> bool) (d : text) :
  forall inputs,
    match get_input_file_io path_exists d inputs with
    | (Returns p, rest) => path_exists p = true /\ length rest < length inputs
    | (Exits code, _) => code = 0%Z
    | (Raises _, _) => False
    end.
Proof.
  induction inputs as [|ev rest IH]; cbn [get_input_file_io]; [reflexivity|].
  destruct ev as [l|]; [|reflexivity].
  destruct (path_exists match strip l with [] => d | c :: p => c :: p end) eqn:E.
  - split; [exact E | cbn [length]; lia].
  - destruct (get_input_file_io path_exists d rest) as [[p|e|code] rest'];
      [|exact IH|exact IH].
    destruct IH as [Hp Hl]. split; [exact Hp | cbn [length]; lia].
Qed.

Lemma catchable_call_ollama (backend : json -> transport) (model prompt : text) :
  catchable (call_ollama backend model prompt).
Proof.
  unfold call_ollama.
  destruct (backend (payload model prompt)) as [e|resp]; [reflexivity|].
  destruct (negb (status_code resp =? 200)%Z); [reflexivity|].
  destruct (json_loads (body resp)) as [data|]; [|reflexivity].
  apply catchable_bind; [apply catchable_message_content|].
  intro content. rewrite decode_content_eq.
  destruct (json_loads (extract_json_from_response content)); cbn; auto.
Qed.

Lemma session_runs (PROMPT_TMPL : text) (path_exists : text -> bool)
      (read_file : text -> file_read) (backend : nat -> json -> transport)
      (models : list text) :
  models <> [] ->
  forall fuel round inputs,
    length inputs < fuel ->
    exists e printed,
      session fuel PROMPT_TMPL path_exists read_file backend models round inputs
      = Some (e, printed)
      /\ session_ending e printed
      /\ Forall (printed_by_session PROMPT_TMPL path_exists read_file backend
                                    models) printed.
Proof.
  intro Hne.
  induction fuel as [|fuel IH]; intros round inputs Hf; [lia|].
  cbn [session]. unfold choose_model_default_io.
  destruct models as [|m0 ms] eqn:Em; [congruence|]. rewrite <- Em in *.
  pose proof (default_loop_io_outcomes models DEFAULT_MODEL Hne inputs) as Hc.
  destruct (default_loop_io models DEFAULT_MODEL inputs)
    as [[selected_model|e|code] inputs1].
  2:{ exists (Uncaught e), []. subst e. cbn. repeat split; auto. }
  2:{ exists (Exit code), []. subst code. cbn. repeat split; auto. }
  destruct Hc as [Hsel Hl1].
  pose proof (get_input_file_io_outcomes path_exists DEFAULT_FILE inputs1) as Hg.
  destruct (get_input_file_io path_exists DEFAULT_FILE inputs1)
    as [[input_file|e|code] inputs2].
  2:{ destruct Hg. }
  2:{ exists (Exit code), []. subst code. cbn. repeat split; auto. }
  destruct Hg as [Hex Hl2].
  assert (Hnext : forall inputs', length inputs' <= length inputs2 ->
            exists e printed,
              session fuel PROMPT_TMPL path_exists read_file backend models
                      (S round) inputs' = Some (e, printed)
              /\ session_ending e printed
              /\ Forall (printed_by_session PROMPT_TMPL path_exists read_file
                                            backend models) printed).
  { intros inputs' Hl. apply IH. lia. }
  destruct (read_file input_file) as [|post_text] eqn:Er;
    [apply Hnext; lia|].
  destruct (strip post_text) as [|c0 s0] eqn:Es; [apply Hnext; lia|].
  pose proof (catchable_call_ollama (backend round) selected_model
                (build_prompt PROMPT_TMPL post_text)) as Hcatch.
  destruct (call_ollama (backend round) selected_model
              (build_prompt PROMPT_TMPL post_text)) as [result|e|code] eqn:Ec;
    cbn [catchable] in Hcatch.
  3:{ destruct Hcatch. }
  2:{ rewrite Hcatch. apply Hnext. lia. }
  assert (Hdoc : printed_by_session PROMPT_TMPL path_exists read_file backend
                                    models result).
  { exists round, selected_model, input_file, post_text.
    repeat split; try assumption. congruence. }
  destruct inputs2 as [|[l|] inputs3].
  - exists (Uncaught EOFError), [result]. split; [reflexivity|].
    split; [right; split; [now left | discriminate] | now constructor].
  - destruct (mem (lower (strip l)) again_answers).
    + destruct (Hnext inputs3) as (e & printed & -> & He & Hp);
        [cbn [length]; lia|].
      exists e, (result :: printed). split; [reflexivity|].
      split; [|now constructor].
      destruct e as [code|e]; cbn in He |- *; [exact He|].
      destruct He as [He | [He _]]; [now left|].
      right. split; [exact He | discriminate].
    + exists (Exit 0), [result]. split; [reflexivity|].
      split; [reflexivity | now constructor].
  - exists (Uncaught KeyboardInterrupt), [result]. split; [reflexivity|].
    split; [right; split; [now right | discriminate] | now constructor].
Qed.


Example main_model_two_rounds :
  main_model (txt "Post: ## POST TEXT IS HERE ##")
             (fun p => text_eqb p DEFAULT_FILE)
             (fun _ => ReadGives (txt "rates cut"))
             (fun round _ =>
                Responds (Response 200
                  (qtxt "{'message':{'content':'thinking...{}'}}")))
             (Fails ConnectionFailed)
             (CliOutput (txt "llama3:8b  1"))
             [Line (txt "1"); Line (txt "nowhere.txt"); Line [];
              Line (txt " Yes "); Line []; Line []; Line (txt "n")]
  = Some (Exit 0, [JObj []; JObj []]).
Proof. reflexivity. Qed.

(* ================================================================== *)
(** ** The Docker model runner client *)

Lemma dmr_content_missing_link (data : json) :
  missing_link data = true -> dmr_content data = Std (Returns (JStr [])).
Proof.
  unfold missing_link, dmr_content, py_get_default.
  destruct data as [| | | | | | | |fields]; try discriminate.
  cbn [dmr_bind].
  destruct (dict_get (txt "choices") fields) as [choices|]; [|reflexivity].
  destruct choices as [| | | | | | |items|]; try discriminate.
  destruct items as [|first others]; [discriminate|].
  destruct first as [| | | | | | | |choice]; try discriminate.
  cbn [first_item dmr_bind].
  destruct (dict_get (txt "message") choice) as [message|]; [|reflexivity].
  destruct message as [| | | | | | | |message]; try discriminate.
  cbn [dmr_bind].
  destruct (dict_get (txt "content") message); [discriminate | reflexivity].
Qed.



(** An empty list of choices, and choices given as an object, raise
    instead. *)
Example call_dmr_empty_choices :
  call_dmr (fun _ => Responds (Response 200 (qtxt "{'choices':[]}")))
           (txt "m") (txt "p") = Std (Raises IndexError)
  /\ call_dmr (fun _ => Responds (Response 200 (qtxt "{'choices':{}}")))
              (txt "m") (txt "p") = RaisesKeyError
  /\ call_dmr (fun _ => Responds (Response 200
                 (qtxt "{'choices':[{'message':null}]}")))
              (txt "m") (txt "p") = Std (Raises AttributeError).
Proof. repeat split. Qed.

(** [call_dmr] returns or raises an [Exception]. *)
Lemma call_dmr_settles (backend : json -> transport) (model prompt : text) :
  match call_dmr backend model prompt with
  | Std o => catchable o
  | RaisesKeyError => True
  end.
Proof.
  unfold call_dmr.
  destruct (backend (payload_dmr model prompt)) as [e|resp]; [reflexivity|].
  destruct (negb (status_code resp =? 200)%Z); [reflexivity|].
  destruct (json_loads (body resp)) as [data|]; [|reflexivity].
  unfold dmr_content, py_get_default.
  destruct data as [| | | | | | | |fields]; try reflexivity. cbn [dmr_bind].
  destruct (match dict_get (txt "choices") fields with
            | Some v => v
            | None => JArr [JObj []]
            end) as [| | | | | |s|items|f]; try reflexivity.
  - destruct s; reflexivity.
  - destruct items as [|first items]; [reflexivity|]. cbn [first_item dmr_bind].
    destruct first as [| | | | | | | |choice]; try reflexivity. cbn [dmr_bind].
    destruct (match dict_get (txt "message") choice with
              | Some v => v
              | None => JObj []
              end) as [| | | | | | | |message]; try reflexivity. cbn [dmr_bind].
    destruct (match dict_get (txt "content") message with
              | Some v => v
              | None => JStr []
              end); try reflexivity.
    apply catchable_decode_strict.
Qed.


(* ================================================================== *)
(** ** A decoded object ends at a closing brace *)

Lemma suffix_refl (s : text) : suffix_of s s.
Proof. now exists []. Qed.

Lemma suffix_cons (c : ascii) (rest s : text) :
  suffix_of rest s -> suffix_of rest (c :: s).
Proof. intros [p ->]. now exists (c :: p). Qed.

Lemma suffix_tail (c : ascii) (rest s : text) :
  suffix_of (c :: rest) s -> suffix_of rest s.
Proof. intros [p ->]. exists (p ++ [c]). now rewrite <- app_assoc. Qed.

Lemma suffix_trans (a b c : text) :
  suffix_of a b -> suffix_of b c -> suffix_of a c.
Proof. intros [p ->] [q ->]. exists (q ++ p). now rewrite app_assoc. Qed.

Lemma skip_ws_suffix (s : text) : suffix_of (skip_ws s) s.
Proof.
  induction s as [|c s IH]; cbn [skip_ws]; [apply suffix_refl|].
  destruct (is_json_ws c); [now apply suffix_cons | apply suffix_refl].
Qed.

Lemma scanstring_suffix_upto (n : nat) :
  forall s r rest,
    length s <= n -> scanstring s = Some (r, rest) -> suffix_of rest s.
Proof.
  induction n as [|n IH]; intros s r rest Hn.
  - destruct s; [discriminate | cbn [length] in Hn; lia].
  - destruct s as [|c t]; [discriminate|]. cbn [length] in Hn.
    cbn [scanstring].
    destruct (code c =? 34);
      [intros [= _ <-]; apply suffix_cons, suffix_refl|].
    destruct (code c =? 92).
    + destruct t as [|e t1]; [discriminate|].
      destruct (code e =? 117).
      * destruct t1 as [|h1 [|h2 [|h3 [|h4 t2]]]]; try discriminate.
        destruct (hex_val h1), (hex_val h2), (hex_val h3), (hex_val h4);
          try discriminate.
        destruct (scanstring t2) as [[r' rest']|] eqn:E; [|discriminate].
        intros [= _ <-]. apply IH in E; [|cbn [length] in *; lia].
        now repeat apply suffix_cons.
      * destruct (simple_escape e); [|discriminate].
        destruct (scanstring t1) as [[r' rest']|] eqn:E; [|discriminate].
        intros [= _ <-]. apply IH in E; [|cbn [length] in *; lia].
        now repeat apply suffix_cons.
    + destruct (code c <? 32); [discriminate|].
      destruct (scanstring t) as [[r' rest']|] eqn:E; [|discriminate].
      intros [= _ <-]. apply IH in E; [|lia]. now apply suffix_cons.
Qed.

Lemma scanstring_suffix (s r rest : text) :
  scanstring s = Some (r, rest) -> suffix_of rest s.
Proof. apply (scanstring_suffix_upto (length s)). lia. Qed.

Lemma digits_aux_suffix (s : text) :
  forall acc n, suffix_of (snd (digits_aux acc n s)) s.
Proof.
  induction s as [|c s IH]; intros acc n; cbn [digits_aux];
    [apply suffix_refl|].
  destruct (is_digit c); [apply suffix_cons, IH | apply suffix_refl].
Qed.

Lemma strip_prefix_suffix (p s rest : text) :
  strip_prefix p s = Some rest -> suffix_of rest s.
Proof.
  revert s; induction p as [|a p IH]; intros s; cbn [strip_prefix].
  - intros [= <-]. apply suffix_refl.
  - destruct s as [|b s]; [discriminate|].
    destruct (chr_eqb a b); [|discriminate].
    intro H. apply suffix_cons. now apply IH.
Qed.

Lemma int_part_suffix (s : text) (v : Z) (rest : text) :
  int_part s = Some (v, rest) -> suffix_of rest s.
Proof.
  unfold int_part. destruct s as [|c t]; [discriminate|].
  destruct (code c =? 48); [intros [= _ <-]; apply suffix_cons, suffix_refl|].
  destruct (is_digit c) eqn:D; [|discriminate].
  unfold digits.
  pose proof (digits_aux_suffix (c :: t) 0%Z 0) as H.
  destruct (digits_aux 0%Z 0 (c :: t)) as [[v' n'] rest'].
  intros [= _ <-]. exact H.
Qed.

Lemma frac_part_suffix (s : text) (v : Z) (n : nat) (rest : text) :
  frac_part s = Some (v, n, rest) -> suffix_of rest s.
Proof.
  unfold frac_part. destruct s as [|c t]; [discriminate|].
  destruct (code c =? 46); [|discriminate].
  unfold digits. pose proof (digits_aux_suffix t 0%Z 0) as H.
  destruct (digits_aux 0%Z 0 t) as [[v' n'] rest'].
  destruct n'; [discriminate|]. intros [= _ _ <-]. now apply suffix_cons.
Qed.

Lemma exp_part_suffix (s : text) (v : Z) (rest : text) :
  exp_part s = Some (v, rest) -> suffix_of rest s.
Proof.
  unfold exp_part. destruct s as [|c t]; [discriminate|].
  destruct ((code c =? 101) || (code c =? 69)); [|discriminate].
  assert (H : forall (neg : bool) (t1 : text), suffix_of t1 t ->
            (let '(v0, n, rest0) := digits t1 in
             match n with
             | 0 => @None (Z * text)
             | S _ => Some (if neg then (- v0)%Z else v0, rest0)
             end) = Some (v, rest) -> suffix_of rest (c :: t)).
  { intros neg t1 Ht1. unfold digits.
    pose proof (digits_aux_suffix t1 0%Z 0) as H.
    destruct (digits_aux 0%Z 0 t1) as [[v' n'] rest'].
    destruct n'; [discriminate|]. intros [= _ <-]. cbn [snd] in H.
    apply suffix_cons. eapply suffix_trans; eauto. }
  destruct t as [|d t']; [apply (H false), suffix_refl|].
  destruct (code d =? 45); [apply (H true), suffix_cons, suffix_refl|].
  destruct (code d =? 43); [apply (H false), suffix_cons, suffix_refl|].
  apply (H false), suffix_refl.
Qed.

Lemma match_number_suffix (s : text) (v : json) (rest : text) :
  match_number s = Some (v, rest) -> suffix_of rest s.
Proof.
  unfold match_number.
  assert (H : forall (neg : bool) (s1 : text), suffix_of s1 s ->
            match int_part s1 with
            | None => None
            | Some (i, s2) =>
                let sg (z : Z) := if neg then (- z)%Z else z in
                match frac_part s2 with
                | Some (fv, fn, s3) =>
                    let mant := (i * 10 ^ Z.of_nat fn + fv)%Z in
                    match exp_part s3 with
                    | Some (e, s4) => Some (JFloat (sg mant) (e - Z.of_nat fn), s4)
                    | None => Some (JFloat (sg mant) (- Z.of_nat fn), s3)
                    end
                | None =>
                    match exp_part s2 with
                    | Some (e, s4) => Some (JFloat (sg i) e, s4)
                    | None => Some (JInt (sg i), s2)
                    end
                end
            end = Some (v, rest) -> suffix_of rest s).
  { intros neg s1 Hs1.
    destruct (int_part s1) as [[i s2]|] eqn:Ei; [|discriminate].
    apply int_part_suffix in Ei.
    assert (H2 : suffix_of s2 s) by (eapply suffix_trans; eauto).
    destruct (frac_part s2) as [[[fv fn] s3]|] eqn:Ef.
    - apply frac_part_suffix in Ef.
      assert (H3 : suffix_of s3 s) by (eapply suffix_trans; eauto).
      destruct (exp_part s3) as [[e s4]|] eqn:Ee.
      + apply exp_part_suffix in Ee. intros [= _ <-].
        eapply suffix_trans; eauto.
      + now intros [= _ <-].
    - destruct (exp_part s2) as [[e s4]|] eqn:Ee.
      + apply exp_part_suffix in Ee. intros [= _ <-].
        eapply suffix_trans; eauto.
      + now intros [= _ <-]. }
  destruct s as [|c t]; [apply (H false), suffix_refl|].
  destruct (code c =? 45);
    [apply (H true), suffix_cons, suffix_refl | apply (H false), suffix_refl].
Qed.

Lemma code_eqb_chr (c : ascii) (n : nat) :
  (code c =? n) = true -> c = ascii_of_nat n.
Proof.
  intro H. apply Nat.eqb_eq in H. subst n. unfold code.
  now rewrite ascii_nat_embedding.
Qed.

(** The members of an object end with its closing brace. *)
Lemma object_members_ends (scan : text -> option (json * text)) :
  (forall u v rest, scan u = Some (v, rest) -> suffix_of rest u) ->
  forall n acc s v rest,
    object_members scan n acc s = Some (v, rest) ->
    suffix_of (rbrace :: rest) s.
Proof.
  intros Hscan. induction n as [|n IH]; intros acc s v rest;
    cbn [object_members]; [discriminate|].
  destruct (scanstring s) as [[key s1]|] eqn:Ek; [|discriminate].
  apply scanstring_suffix in Ek.
  pose proof (skip_ws_suffix s1) as H1.
  destruct (skip_ws s1) as [|c s2]; [discriminate|].
  destruct (code c =? 58); [|discriminate].
  pose proof (skip_ws_suffix s2) as H2.
  destruct (scan (skip_ws s2)) as [[v1 s3]|] eqn:Ev; [|discriminate].
  apply Hscan in Ev.
  pose proof (skip_ws_suffix s3) as H3.
  assert (Hs3 : suffix_of (skip_ws s3) s).
  { eapply suffix_trans; [exact H3|]. eapply suffix_trans; [exact Ev|].
    eapply suffix_trans; [exact H2|]. eapply suffix_trans; [|exact Ek].
    eapply suffix_tail; eauto. }
  destruct (skip_ws s3) as [|d s4]; [discriminate|].
  destruct (code d =? 125) eqn:Ed.
  { intros [= _ <-]. apply code_eqb_chr in Ed. now subst d. }
  destruct (code d =? 44); [|discriminate].
  pose proof (skip_ws_suffix s4) as H4.
  destruct (skip_ws s4) as [|q s5]; [discriminate|].
  destruct (code q =? 34); [|discriminate].
  intro H. apply IH in H. eapply suffix_trans; [exact H|].
  eapply suffix_tail. eapply suffix_trans; [exact H4|].
  eapply suffix_tail; eauto.
Qed.

Lemma array_items_suffix (scan : text -> option (json * text)) :
  (forall u v rest, scan u = Some (v, rest) -> suffix_of rest u) ->
  forall n acc s v rest,
    array_items scan n acc s = Some (v, rest) -> suffix_of rest s.
Proof.
  intros Hscan. induction n as [|n IH]; intros acc s v rest;
    cbn [array_items]; [discriminate|].
  destruct (scan s) as [[v1 s1]|] eqn:Ev; [|discriminate].
  apply Hscan in Ev.
  pose proof (skip_ws_suffix s1) as H1.
  assert (Hs1 : suffix_of (skip_ws s1) s) by (eapply suffix_trans; eauto).
  destruct (skip_ws s1) as [|d s2]; [discriminate|].
  destruct (code d =? 93);
    [intros [= _ <-]; eapply suffix_tail; eauto|].
  destruct (code d =? 44); [|discriminate].
  intro H. apply IH in H.
  eapply suffix_trans; [exact H|].
  eapply suffix_trans; [apply skip_ws_suffix|].
  eapply suffix_tail; eauto.
Qed.

Lemma scan_once_suffix (fuel : nat) :
  forall s v rest, scan_once fuel s = Some (v, rest) -> suffix_of rest s.
Proof.
  induction fuel as [|f IH]; intros s v rest; cbn [scan_once]; [discriminate|].
  destruct s as [|c t]; [discriminate|].
  destruct (code c =? 34).
  { destruct (scanstring t) as [[r rest']|] eqn:E; [|discriminate].
    apply scanstring_suffix in E. intros [= _ <-]. now apply suffix_cons. }
  destruct (code c =? 123).
  { unfold JSONObject. pose proof (skip_ws_suffix t) as Ht.
    destruct (skip_ws t) as [|d t']; [discriminate|].
    destruct (code d =? 125).
    { intros [= _ <-]. apply suffix_cons. eapply suffix_tail; eauto. }
    destruct (code d =? 34); [|discriminate].
    intro H. apply (object_members_ends _ IH) in H.
    apply suffix_cons. eapply suffix_trans; [|exact Ht].
    apply suffix_cons. eapply suffix_tail; eauto. }
  destruct (code c =? 91).
  { unfold JSONArray. pose proof (skip_ws_suffix t) as Ht.
    destruct (skip_ws t) as [|d t'] eqn:Et; [discriminate|].
    destruct (code d =? 93).
    { intros [= _ <-]. apply suffix_cons. eapply suffix_tail; eauto. }
    intro H. apply (array_items_suffix _ IH) in H.
    apply suffix_cons. eapply suffix_trans; eauto. }
  repeat match goal with
         | |- match strip_prefix ?p ?u with _ => _ end = _ -> _ =>
             let E := fresh "E" in
             destruct (strip_prefix p u) eqn:E;
             [apply strip_prefix_suffix in E; now intros [= _ <-]|]
         end.
  apply match_number_suffix.
Qed.

(** A value that starts with an opening brace ends with a closing one. *)
Lemma scan_once_object_ends (fuel : nat) (t : text) (v : json) (rest : text) :
  scan_once fuel (lbrace :: t) = Some (v, rest) ->
  suffix_of (rbrace :: rest) t.
Proof.
  destruct fuel as [|f]; cbn [scan_once]; [discriminate|].
  change (code lbrace =? 34) with false.
  change (code lbrace =? 123) with true. cbv iota.
  unfold JSONObject. pose proof (skip_ws_suffix t) as Ht.
  destruct (skip_ws t) as [|d t']; [discriminate|].
  destruct (code d =? 125) eqn:Ed.
  { intros [= _ <-]. apply code_eqb_chr in Ed. now subst d. }
  destruct (code d =? 34); [|discriminate].
  intro H. apply (object_members_ends _ (scan_once_suffix f)) in H.
  eapply suffix_trans; [exact H|]. eapply suffix_tail; eauto.
Qed.

Lemma skip_ws_nil (s : text) :
  skip_ws s = [] -> forallb is_json_ws s = true.
Proof.
  induction s as [|c s IH]; cbn [skip_ws forallb]; [reflexivity|].
  destruct (is_json_ws c); [exact IH | discriminate].
Qed.

Lemma last_split_unique (x : ascii) (a : text) :
  forall a' b b',
    a ++ x :: b = a' ++ x :: b' -> ~ In x b -> ~ In x b' -> b = b'.
Proof.
  induction a as [|c a IH]; intros [|c' a'] b b' E Hb Hb'; cbn [app] in E.
  - congruence.
  - injection E as -> ->. exfalso. apply Hb, in_or_app. right. now left.
  - injection E as -> <-. exfalso. apply Hb', in_or_app. right. now left.
  - injection E as -> E. eapply IH; eauto.
Qed.

(** An object followed by text that is not all whitespace and holds no
    closing brace does not parse. *)
Lemma object_with_trailer_fails (mid post : text) :
  ~ In rbrace post ->
  forallb is_json_ws post = false ->
  parses (lbrace :: mid ++ rbrace :: post) = false.
Proof.
  intros Hpost Hws. unfold parses, json_loads.
  change (skip_ws (lbrace :: mid ++ rbrace :: post))
    with (lbrace :: mid ++ rbrace :: post).
  destruct (scan_once _ (lbrace :: mid ++ rbrace :: post))
    as [[v rest]|] eqn:E; [|reflexivity].
  destruct (skip_ws rest) eqn:Er; [|reflexivity].
  exfalso. apply scan_once_object_ends in E. destruct E as [consumed E].
  apply skip_ws_nil in Er.
  assert (Hrest : ~ In rbrace rest).
  { intro Hin. rewrite forallb_forall in Er. now specialize (Er _ Hin). }
  assert (post = rest) by (eapply last_split_unique; eauto).
  subst rest. congruence.
Qed.

(* ================================================================== *)
(** ** A fenced object *)

Lemma count_suffix (c : ascii) (rest s : text) :
  suffix_of rest s ->
  count_occ ascii_dec rest c <= count_occ ascii_dec s c.
Proof. intros [p ->]. rewrite count_occ_app. lia. Qed.

Lemma count_prefix_fence (p u : text) :
  prefix_by chr_eqb (txt "```" ++ p) u = true ->
  exists u', u = txt "```" ++ u'
             /\ suffix_of (skipn (length (txt "```" ++ p)) u) u'
             /\ count_occ ascii_dec u backtick
                = 3 + count_occ ascii_dec u' backtick.
Proof.
  intro H. apply prefix_by_eq in H as [post ->].
  exists (p ++ post). rewrite <- app_assoc. split; [reflexivity|].
  split.
  - rewrite app_assoc, skipn_app, skipn_all, Nat.sub_diag. cbn [app skipn].
    now exists p.
  - rewrite count_occ_app. reflexivity.
Qed.

(** The closing fence needs three backticks. *)
Lemma no_closing_fence (a : regex) (u : text) :
  count_occ ascii_dec u backtick < 3 ->
  run (Seq a (lit "```")) u = [].
Proof.
  intro Hu. cbn [run]. apply flat_map_none. intros m Hm.
  apply run_suffix in Hm. unfold lit. rewrite run_lit.
  destruct (prefix_by chr_eqb (txt "```") (snd m)) eqn:E; [|reflexivity].
  exfalso. change (txt "```") with (txt "```" ++ []) in E.
  apply count_prefix_fence in E as (u' & _ & _ & Hc).
  pose proof (count_suffix backtick (snd m) u Hm). lia.
Qed.

Lemma seq_none (a b : regex) (u : text) :
  (forall m, In m (run a u) -> run b (snd m) = []) ->
  run (Seq a b) u = [].
Proof.
  intro H. cbn [run]. apply flat_map_none. intros m Hm.
  now rewrite (H m Hm).
Qed.

Lemma no_fence_body (u : text) :
  count_occ ascii_dec u backtick < 3 ->
  run (Seq (Star isspace)
         (Seq (Group (LazyStar any_chr)) (Seq (Star isspace) (lit "```")))) u
  = [].
Proof.
  intro Hu. apply seq_none. intros m1 H1. apply run_suffix in H1.
  apply seq_none. intros m2 H2. apply run_suffix in H2.
  apply no_closing_fence.
  pose proof (count_suffix backtick _ _ H1).
  pose proof (count_suffix backtick _ _ H2). lia.
Qed.

(** A fence pattern needs an opening and a closing fence: six backticks. *)
Lemma never_matches_few_backticks (s : text) :
  count_occ ascii_dec s backtick < 6 ->
  never_matches pat_fence_json s /\ never_matches pat_fence s.
Proof.
  intro Hs.
  assert (H : forall p pre t,
             s = pre ++ t ->
             run (Seq (lit_by chr_eqb (txt "```" ++ p))
                    (Seq (Star isspace)
                       (Seq (Group (LazyStar any_chr))
                          (Seq (Star isspace) (lit "```"))))) t = []).
  { intros p pre t E. apply seq_none. intros m Hm.
    rewrite run_lit in Hm.
    destruct (prefix_by chr_eqb (txt "```" ++ p) t) eqn:Ep; [|destruct Hm].
    destruct Hm as [<- | []]. cbn [snd].
    apply count_prefix_fence in Ep as (u' & _ & Hsuf & Hc).
    apply no_fence_body.
    pose proof (count_suffix backtick _ _ Hsuf).
    assert (Ht : suffix_of t s) by now exists pre.
    pose proof (count_suffix backtick _ _ Ht). lia. }
  split; intros pre t E.
  - exact (H (txt "json") pre t E).
  - exact (H [] pre t E).
Qed.

(** X19.  An object in a fenced block is recovered.  When an object that
    parses is preceded by text without an opening brace (commentary, the
    opening fence) and followed by text without a closing brace that is not
    all whitespace (the closing fence, commentary), and object and trailing
    text hold no marker and fewer than six backticks, the extractor
    returns exactly the object. *)
Theorem fenced_object_recovered (pre mid post : text) :
  let obj := lbrace :: mid ++ [rbrace] in
  ~ In lbrace pre ->
  ~ In rbrace post ->
  forallb is_json_ws post = false ->
  count_occ ascii_dec (obj ++ post) backtick < 6 ->
  unmarked (obj ++ post) ->
  parses obj = true ->
  extract_json_from_response (pre ++ obj ++ post) = obj.
Proof.
  intros obj Hpre Hpost Hws Htick Hum Hp. subst obj.
  assert (Heq : (mid ++ [rbrace]) ++ post = mid ++ rbrace :: post)
    by now rewrite <- app_assoc.
  assert (Hc : clean (pre ++ (lbrace :: mid ++ [rbrace]) ++ post)
               = (lbrace :: mid ++ [rbrace]) ++ post).
  { cbn [app] in *. now apply clean_after_noise. }
  unfold extract_json_from_response. rewrite Hc.
  assert (Hfail : parses ((lbrace :: mid ++ [rbrace]) ++ post) = false).
  { cbn [app]. rewrite Heq. now apply object_with_trailer_fails. }
  rewrite Hfail.
  destruct (never_matches_few_backticks _ Htick) as [Hf1 Hf2].
  apply re_findall_no_match in Hf1, Hf2.
  destruct (run_braces_greedy_last mid post Hpost) as [ms Hrun].
  destruct (re_findall_head _ _ _ _ _ Hrun) as [more Hmore].
  unfold pattern_matches, patterns. cbn [flat_map].
  rewrite Hf1, Hf2. cbn [app]. rewrite Heq, Hmore.
  cbn [app find fst group_text]. now rewrite Hp.
Qed.

Lemma fenced_object_recovered_sample :
  extract_json_from_response
    (txt "Here it is:" ++ newline ++ txt "```json" ++ newline
     ++ qtxt "{'valid':'json'}" ++ newline ++ txt "```")
  = qtxt "{'valid':'json'}".
Proof.
  apply (fenced_object_recovered
           (txt "Here it is:" ++ newline ++ txt "```json" ++ newline)
           (qtxt "'valid':'json'") (newline ++ txt "```")).
  - vm_compute. intuition discriminate.
  - vm_compute. intuition discriminate.
  - reflexivity.
  - vm_compute. lia.
  - repeat split.
  - reflexivity.
Defined.

(* ================================================================== *)
(** ** The catalog the choosers are given *)

Lemma list_cli_sorted (b : flavor) (reply : cli_reply) (l : list text) :
  _list_models_via_cli b reply = Returns l -> StronglySorted text_lt l.
Proof.
  destruct reply as [e|out]; cbn [_list_models_via_cli try_except is_Exception];
    intros [= <-]; [constructor | apply sorted_set_sorted].
Qed.


